(** * bro-cut: column projection of ASCII Bro logs

    A shallow embedding of [aux/bro-aux/bro-cut/bro-cut.c] and the
    properties of its projection engine.

    Conventions of the embedding.
    - A C string is a [string]: the bytes before the terminating NUL.  A
      [char] is an [ascii]; the conversion [long -> char] keeps the low
      eight bits.
    - An [int] is a [Z]; counters stay far below [2^31] (a line would have
      to be longer than 2 GiB to overflow one), so no wrap-around is
      written out for them.
    - An array together with its element count is a [list].
    - [stdout] is the list of the records written to it, one for each
      call of [puts] or run of the output loop, which ends it with a line
      feed; a record is one line of text unless the output separator is
      itself a line feed.  [stderr] is the list of the diagnostics written
      to it.
    - The loop body works on the buffer that [getline] filled: the bytes
      read, the last one cleared, then the terminator of [getline].  A line
      is given to the model as the bytes before the cleared one.
    - Behaviour that C leaves undefined (reading past a terminator, reading
      a slot of a scratch array that was never written) is an explicit
      outcome of the model, never a default value.
    - Allocation ([malloc], [realloc], [strdup]) is assumed to succeed. *)

From Stdlib Require Import ZArith List String Ascii Bool Sorted Lia.
Import ListNotations.

Local Open Scope string_scope.
Local Open Scope list_scope.
Local Open Scope Z_scope.

(* ================================================================= *)
(** ** C strings *)

Module CStr.

Definition NUL : ascii := Ascii.zero.
Definition TAB : ascii := "009"%char.
Definition LF : ascii := "010"%char.

Definition is_nul (c : ascii) : bool := Ascii.eqb c NUL.

(** [s[0]]: the first byte, the terminator for the empty string. *)
Definition char0 (s : string) : ascii :=
  match s with
  | EmptyString => NUL
  | String c _ => c
  end.

(** The one-byte string held by a [char[2]] buffer whose second byte is
    NUL: empty when the first byte is NUL too. *)
Definition buf2 (c : ascii) : string :=
  if is_nul c then EmptyString else String c EmptyString.

(** [!strncmp(s, p, strlen(p))]: [s] starts with [p]. *)
Fixpoint starts_with (p s : string) : bool :=
  match p with
  | EmptyString => true
  | String a p' =>
      match s with
      | EmptyString => false
      | String b s' => (Ascii.eqb a b && starts_with p' s')%bool
      end
  end.

(** [s + n], defined while the pointer stays within the string or on its
    terminator. *)
Fixpoint advance (n : nat) (s : string) : option string :=
  match n with
  | O => Some s
  | S n' =>
      match s with
      | EmptyString => None
      | String _ r => advance n' r
      end
  end.

(** The part of a buffer that C sees as a string: up to the first NUL. *)
Fixpoint until_nul (s : string) : string :=
  match s with
  | EmptyString => EmptyString
  | String c r => if is_nul c then EmptyString else String c (until_nul r)
  end.

(** The C string at [buf + n], for the buffer that [getline] filled and
    whose last byte the loop then cleared, [buf] being its bytes before
    that last one: the bytes of [buf] from [n] on, up to the first NUL; and
    the empty string when [n] is one past the end of [buf], where the
    terminator that [getline] itself wrote lies.  The callers compare the
    [n - 1] bytes before with a tag, so [n] is never further out. *)
Definition offset (n : nat) (buf : string) : string :=
  until_nul (match advance n buf with
             | Some r => r
             | None => EmptyString
             end).

(** Cut [s] at the first occurrence of [d]: the token before it, and the
    rest after it when there is one. *)
Fixpoint split_at (d : ascii) (s : string) : string * option string :=
  match s with
  | EmptyString => (EmptyString, None)
  | String c r =>
      if Ascii.eqb c d then (EmptyString, Some r)
      else let (t, rest) := split_at d r in (String c t, rest)
  end.

(** [strsep(&p, buf2 d)]: [None] is the NULL result; otherwise the token
    and the new value of [p].  With an empty delimiter set the whole
    string is the token. *)
Definition strsep (d : ascii) (p : option string)
  : option (string * option string) :=
  match p with
  | None => None
  | Some s => Some (if is_nul d then (s, None) else split_at d s)
  end.

(** The tokens of [while ((f = strsep(&p, d)) != NULL)] for a delimiter
    that is not NUL. *)
Fixpoint tokens (d : ascii) (s : string) : list string :=
  match s with
  | EmptyString => [EmptyString]
  | String c r =>
      if Ascii.eqb c d then EmptyString :: tokens d r
      else match tokens d r with
           | f :: fs => String c f :: fs
           | [] => [String c EmptyString]
           end
  end.

(** All the fields of a line under the separator buffer [buf2 d]. *)
Definition all_fields (d : ascii) (s : string) : list string :=
  if is_nul d then [s] else tokens d s.

(** The first [n] results of [strsep], [None] as soon as one is NULL. *)
Fixpoint take_fields (d : ascii) (n : nat) (p : option string)
  : option (list string) :=
  match n with
  | O => Some []
  | S n' =>
      match strsep d p with
      | None => None
      | Some (f, p') =>
          match take_fields d n' p' with
          | None => None
          | Some fs => Some (f :: fs)
          end
      end
  end.

(** Number of occurrences of [d] in [s]. *)
Fixpoint count_char (d : ascii) (s : string) : Z :=
  match s with
  | EmptyString => 0
  | String c r => (if Ascii.eqb c d then 1 else 0) + count_char d r
  end.

(** [list[i]] for a C index, [None] outside the written part. *)
Definition at_index {A : Type} (l : list A) (i : Z) : option A :=
  if i <? 0 then None else nth_error l (Z.to_nat i).

(** The fields written by successive [fputs], one separator string
    between two of them. *)
Definition join (sep : string) (fs : list string) : string :=
  String.concat sep fs.

End CStr.
Import CStr.

(* ================================================================= *)
(** ** [strtol] in base 16 and [parsesep] *)

Module Strtol.

Definition isspace (c : ascii) : bool :=
  let n := N_of_ascii c in
  (N.eqb n 32 || (N.leb 9 n && N.leb n 13))%bool.

Definition hexval (c : ascii) : option Z :=
  let n := Z.of_N (N_of_ascii c) in
  if (48 <=? n) && (n <=? 57) then Some (n - 48)
  else if (97 <=? n) && (n <=? 102) then Some (n - 87)
  else if (65 <=? n) && (n <=? 70) then Some (n - 55)
  else None.

Fixpoint skip_space (s : string) : string :=
  match s with
  | String c r => if isspace c then skip_space r else s
  | EmptyString => s
  end.

(** Value of the longest run of hexadecimal digits at the start of [s],
    continuing from [acc]. *)
Fixpoint hex_run (acc : Z) (s : string) : Z :=
  match s with
  | EmptyString => acc
  | String c r =>
      match hexval c with
      | Some d => hex_run (16 * acc + d) r
      | None => acc
      end
  end.

(** [long] of an LP64 platform. *)
Definition LONG_MAX : Z := 2 ^ 63 - 1.
Definition LONG_MIN : Z := - 2 ^ 63.

Definition is_x (c : ascii) : bool :=
  (Ascii.eqb c "x" || Ascii.eqb c "X")%bool.

(** An optional [0x] or [0X] in front of a hexadecimal digit. *)
Definition skip_0x (s : string) : string :=
  match s with
  | String z (String x (String h r)) =>
      if (Ascii.eqb z "0" && is_x x)%bool then
        match hexval h with
        | Some _ => String h r
        | None => s
        end
      else s
  | _ => s
  end.

(** [strtol(s, NULL, 16)]: white space, an optional sign, an optional
    [0x], then the digits; the result is clamped to the range of
    [long], and is 0 when there is no digit. *)
Definition strtol16 (s : string) : Z :=
  let s1 := skip_space s in
  let '(neg, s2) :=
    match s1 with
    | String c r =>
        if Ascii.eqb c "-" then (true, r)
        else if Ascii.eqb c "+" then (false, r)
        else (false, s1)
    | EmptyString => (false, s1)
    end in
  let v := hex_run 0 (skip_0x s2) in
  if neg then (if - v <? LONG_MIN then LONG_MIN else - v)
  else (if LONG_MAX <? v then LONG_MAX else v).

(** The conversion [ifs = sepval]: the low eight bits. *)
Definition char_of_long (v : Z) : ascii :=
  ascii_of_N (Z.to_N (v mod 256)).

End Strtol.
Import Strtol.

(** Return the input field separator from the log's "#separator " header
    line. *)
Definition parsesep (sepstr : string) : ascii :=
  if starts_with "\x" sepstr then
    match advance 2 sepstr with
    | Some digits => char_of_long (strtol16 digits)
    | None => NUL
    end
  else char0 sepstr.

(* ================================================================= *)
(** ** Run parameters *)

(** User-specified options that stay constant during a run of bro-cut.
    [num_columns] is the length of [columns]. *)
Module Opt.
Record useropts := {
  showhdr : Z;           (* show log headers? (0=no, 1=only first, 2=all) *)
  negate : Z;            (* show all but the specified columns? *)
  timeconv : Z;          (* do time conversion? (0=no, 1=local, 2=UTC) *)
  columns : list string; (* user-specified column names *)
  ofs : string;          (* user-specified output field separator *)
  timefmt : string       (* strftime format string *)
}.
End Opt.
Definition useropts : Type := Opt.useropts.

(** The options [main] starts from, before any flag is read and when the
    environment sets no time format. *)
Definition default_opts (cols : list string) : useropts :=
  {| Opt.showhdr := 0; Opt.negate := 0; Opt.timeconv := 0;
     Opt.columns := cols; Opt.ofs := "";
     Opt.timefmt := "%Y-%m-%dT%H:%M:%S%z" |}.

(** Parameters that might change with each log file being processed.
    [num_out_indexes] is the length of [out_indexes].  Of the scratch
    array [tmp_fields] only the number of allocated slots outlives a call:
    the strings it points to are freed or overwritten by the next line. *)
Record logparams := {
  out_indexes : list Z;   (* log file column indices to output *)
  idx_range : Z;          (* max. value in "out_indexes" plus one *)
  time_cols : list bool;  (* columns that are timestamps *)
  tmp_slots : Z;          (* slots allocated for "tmp_fields" *)
  num_fields : Z;         (* number of fields in log file *)
  ifs : ascii;            (* input field separator character *)
  ofs : ascii             (* output field separator character *)
}.

Definition set_seps (lp : logparams) (i o : ascii) : logparams :=
  {| out_indexes := out_indexes lp; idx_range := idx_range lp;
     time_cols := time_cols lp; tmp_slots := tmp_slots lp;
     num_fields := num_fields lp; ifs := i; ofs := o |}.

Definition set_time_cols (lp : logparams) (tc : list bool) : logparams :=
  {| out_indexes := out_indexes lp; idx_range := idx_range lp;
     time_cols := tc; tmp_slots := tmp_slots lp;
     num_fields := num_fields lp; ifs := ifs lp; ofs := ofs lp |}.

Definition set_indexes (lp : logparams) (n : Z) (oi : list Z) (range : Z)
  : logparams :=
  {| out_indexes := oi; idx_range := range;
     time_cols := time_cols lp; tmp_slots := n + 1;
     num_fields := n; ifs := ifs lp; ofs := ofs lp |}.

(* ================================================================= *)
(** ** Column resolution *)

(** Return the index in "haystack" where "needle" is located (or -1 if not
    found). *)
Fixpoint string_index_from (i : Z) (haystack : list string) (needle : string)
  : Z :=
  match haystack with
  | [] => -1
  | h :: t =>
      if String.eqb h needle then i else string_index_from (i + 1) t needle
  end.

Definition string_index (haystack : list string) (needle : string) : Z :=
  string_index_from 0 haystack needle.

(** [if (v > maxval) maxval = v], over the values in the order they are
    stored, from [maxval = 0]. *)
Definition maxval_of (stored : list Z) : Z :=
  fold_left (fun maxval v => if maxval <? v then v else maxval) stored 0.

(** [0; 1; ...; n-1]. *)
Definition iota (n : nat) : list Z := map Z.of_nat (seq 0 n).

(** The loop of the "-n" branch, from field number [idx] on. *)
Fixpoint negated_from (idx : Z) (cols fields : list string) : list Z :=
  match fields with
  | [] => []
  | f :: r =>
      if string_index cols f =? -1
      then idx :: negated_from (idx + 1) cols r
      else negated_from (idx + 1) cols r
  end.

(** Store in "out_indexes" the index numbers of the columns of "line" to
    output later, and in "idx_range" the maximum value in "out_indexes"
    plus one.  [None]: with a NUL separator the field count walks past the
    terminator of the line. *)
Definition find_output_indexes (line : string) (lp : logparams)
  (bopts : useropts) : option logparams :=
  if is_nul (ifs lp) then None
  else
    let n := count_char (ifs lp) line + 1 in
    match Opt.columns bopts with
    | [] => Some (set_indexes lp n (iota (Z.to_nat n)) n)
    | _ :: _ =>
        let tmp_fields := tokens (ifs lp) line in
        let oi :=
          if Opt.negate bopts =? 0
          then map (string_index tmp_fields) (Opt.columns bopts)
          else negated_from 0 (Opt.columns bopts) tmp_fields in
        Some (set_indexes lp n oi (maxval_of oi + 1))
    end.

(** Determine the columns (if any) where the field is "time".  [inr] is
    the non-zero return, with the diagnostic written. *)
Definition find_timecol (line : string) (lp : logparams)
  : logparams + string :=
  match take_fields (ifs lp) (Z.to_nat (idx_range lp)) (Some line) with
  | None => inr "bro-cut: log header does not have enough fields"
  | Some fs => inl (set_time_cols lp (map (String.eqb "time") fs))
  end.

(* ================================================================= *)
(** ** Line projection and the driver *)

Definition skip_diag : string :=
  "bro-cut: skipping log line (not enough fields)".
Definition trunc_diag : string :=
  "bro-cut: truncating timestamp (too long)".
Definition missing_types_diag : string :=
  "bro-cut: bad log header (missing #types line)".
Definition missing_fields_diag : string :=
  "bro-cut: bad log header (missing #fields line)".

(** What [getline] hands to the loop body, one entry per call that returns
    a positive length: the bytes up to and including the next line feed, or
    up to the end of the input. *)
Fixpoint getlines (input : string) : list string :=
  match input with
  | EmptyString => []
  | String c r =>
      if Ascii.eqb c LF then String c EmptyString :: getlines r
      else match getlines r with
           | [] => [String c EmptyString]
           | l :: ls => String c l :: ls
           end
  end.

Fixpoint drop_last (s : string) : string :=
  match s with
  | EmptyString => EmptyString
  | String c EmptyString => EmptyString
  | String c r => String c (drop_last r)
  end.

(** [line[linelen - 1] = '\0'], then the line as a C string. *)
Definition chomp (chunk : string) : string := until_nul (drop_last chunk).

Inductive result : Type :=
| Exit (ret : Z) (out err : list string)
| UndefinedBehaviour.

Record state := {
  lp : logparams;
  headers_seen : Z;        (* 0=no header blocks seen, 1=one seen, 2=2+ seen *)
  prev_line_hdr : bool;    (* previous line was a header line? *)
  prev_fields_line : bool; (* previous line was #fields line? *)
  stdout : list string;
  stderr : list string
}.

(** One iteration of the loop of [bro_cut]: [Continue] reaches the next
    [getline], [Fatal] is [ret = 1; break], after which only what was
    written to stdout and stderr is still looked at. *)
Inductive step_result : Type :=
| Continue (st : state)
| Fatal (st : state)
| Undef.

(** The text that [atol], [localtime] or [gmtime] and [strftime] put in
    [tbuf] for a field, given "timeconv" and "timefmt", and whether
    [strftime] returned 0.  It depends on the C library and on the time
    zone of the process, and is kept abstract. *)
Class TimeText : Type :=
  time_text : Z -> string -> string -> string * bool.

Section Projection.

Context {clock : TimeText}.

(** One round of the output loop for the value [idxval] of "out_indexes":
    the text written to stdout and the diagnostics written to stderr. *)
Definition output_field (hdr dotimeconv dotimetypeconv : bool)
  (lp : logparams) (bopts : useropts) (tmp_fields : list string)
  (idxval : Z) : option (string * list string) :=
  if idxval =? -1 then Some (EmptyString, [])
  else
    let plain :=
      match at_index tmp_fields (idxval + (if hdr then 1 else 0)) with
      | None => None
      | Some f =>
          if (dotimetypeconv && String.eqb "time" f)%bool
          then Some ("string", [])
          else Some (f, [])
      end in
    if dotimeconv then
      match at_index (time_cols lp) idxval with
      | None => None
      | Some true =>
          match at_index tmp_fields idxval with
          | None => None
          | Some f =>
              let (tbuf, truncated) :=
                time_text (Opt.timeconv bopts) (Opt.timefmt bopts) f in
              Some (tbuf, if truncated then [trunc_diag] else [])
          end
      | Some false => plain
      end
    else plain.

Fixpoint output_loop (hdr dotimeconv dotimetypeconv : bool)
  (lp : logparams) (bopts : useropts) (tmp_fields : list string)
  (idxs : list Z) (firstdone : bool) : option (string * list string) :=
  match idxs with
  | [] => Some (EmptyString, [])
  | idxval :: rest =>
      match output_field hdr dotimeconv dotimetypeconv lp bopts
              tmp_fields idxval with
      | None => None
      | Some (txt, e) =>
          match output_loop hdr dotimeconv dotimetypeconv lp bopts
                  tmp_fields rest true with
          | None => None
          | Some (txt', e') =>
              Some (((if firstdone then buf2 (ofs lp) else EmptyString)
                     ++ txt ++ txt')%string, e ++ e')
          end
      end
  end.

(** Output the columns of "line" that the user specified.  The result is
    the record written to stdout, if any, and the diagnostics written to
    stderr;
    [None] when the call writes past "tmp_fields" or reads a slot that it
    did not write. *)
Definition output_indexes (hdr : bool) (line : string) (lp : logparams)
  (bopts : useropts) : option (list string * list string) :=
  let idxrange := idx_range lp + (if hdr then 1 else 0) in
  let dotimeconv := (negb (Opt.timeconv bopts =? 0) && negb hdr)%bool in
  if (tmp_slots lp <? idxrange)%Z then None
  else
    match take_fields (ifs lp) (Z.to_nat idxrange) (Some line) with
    | None => Some ([], [skip_diag])
    | Some tmp_fields =>
        match (if hdr then at_index tmp_fields 0 else Some EmptyString) with
        | None => None
        | Some tag =>
            let dotimetypeconv :=
              (negb (Opt.timeconv bopts =? 0) && hdr
               && String.eqb tag "#types")%bool in
            match output_loop hdr dotimeconv dotimetypeconv lp bopts
                    tmp_fields (out_indexes lp) hdr with
            | None => None
            | Some (txt, e) => Some ([(tag ++ txt)%string], e)
            end
        end
    end.

Definition init_lp : logparams :=
  {| out_indexes := []; idx_range := 0; time_cols := []; tmp_slots := 0;
     num_fields := 0; ifs := TAB; ofs := TAB |}.

Definition init_state : state :=
  {| lp := init_lp; headers_seen := 0; prev_line_hdr := false;
     prev_fields_line := false; stdout := []; stderr := [] |}.

Definition is_header (line : string) : bool := Ascii.eqb (char0 line) "#".

Definition emit (st : state) (l : logparams) (hs : Z) (plh pfl : bool)
  (o e : list string) : state :=
  {| lp := l; headers_seen := hs; prev_line_hdr := plh;
     prev_fields_line := pfl; stdout := stdout st ++ o;
     stderr := stderr st ++ e |}.

(** The header branches of the loop body: the new parameters and the new
    value of "prev_fields_line", or the diagnostic of a fatal error. *)
Inductive header_result : Type :=
| HOk (l : logparams) (pfl : bool)
| HFatal (e : list string)
| HUndef.

Definition process_header (bopts : useropts) (st : state) (line : string)
  : header_result :=
  if starts_with "#separator " line then
    let i := parsesep (offset 11 line) in
    let o := if is_nul (char0 (Opt.ofs bopts)) then i
             else char0 (Opt.ofs bopts) in
    HOk (set_seps (lp st) i o) (prev_fields_line st)
  else if starts_with "#fields" line then
    match find_output_indexes (offset 8 line) (lp st) bopts with
    | None => HUndef
    | Some l => HOk l true
    end
  else if starts_with "#types" line then
    if negb (prev_fields_line st) then HFatal [missing_fields_diag]
    else if Opt.timeconv bopts =? 0 then HOk (lp st) false
    else
      match find_timecol (offset 7 line) (lp st) with
      | inr d => HFatal [d]
      | inl l => HOk l false
      end
  else HOk (lp st) (prev_fields_line st).

(** One round of the loop.  [line] holds the bytes that [getline] read
    without the last one, which the loop clears; the line as a C string is
    [until_nul line], and a tag is compared on the bytes themselves. *)
Definition step (bopts : useropts) (st : state) (line : string)
  : step_result :=
  if (prev_fields_line st && negb (starts_with "#types" line))%bool then
    Fatal (emit st (lp st) (headers_seen st) (prev_line_hdr st)
             (prev_fields_line st) [] [missing_types_diag])
  else if negb (is_header line) then
    match output_indexes false (until_nul line) (lp st) bopts with
    | None => Undef
    | Some (o, e) =>
        Continue (emit st (lp st) (headers_seen st) false
                    (prev_fields_line st) o e)
    end
  else
    let hs :=
      if prev_line_hdr st then headers_seen st
      else if headers_seen st <? 2 then headers_seen st + 1
           else headers_seen st in
    match process_header bopts st line with
    | HUndef => Undef
    | HFatal e =>
        Fatal (emit st (lp st) hs true (prev_fields_line st) [] e)
    | HOk l pfl =>
        if hs <=? Opt.showhdr bopts then
          if (starts_with "#fields" line || starts_with "#types" line)%bool
          then
            match output_indexes true (until_nul line) l bopts with
            | None => Undef
            | Some (o, e) => Continue (emit st l hs true pfl o e)
            end
          else Continue (emit st l hs true pfl [until_nul line] [])
        else Continue (emit st l hs true pfl [] [])
    end.

(** The loop, from the state [st], over the lines still to be read. *)
Fixpoint steps (bopts : useropts) (st : state) (lines : list string)
  : step_result :=
  match lines with
  | [] => Continue st
  | line :: rest =>
      match step bopts st line with
      | Continue st' => steps bopts st' rest
      | r => r
      end
  end.

Definition bro_cut_lines (bopts : useropts) (lines : list string) : result :=
  match steps bopts init_state lines with
  | Continue st => Exit 0 (stdout st) (stderr st)
  | Fatal st => Exit 1 (stdout st) (stderr st)
  | Undef => UndefinedBehaviour
  end.

(** Reads one or more log files from stdin and outputs them to stdout
    according to the options specified in "bopts".  Returns 0 on
    success, and non-zero otherwise. *)
Definition bro_cut (bopts : useropts) (input : string) : result :=
  bro_cut_lines bopts (map drop_last (getlines input)).

End Projection.

(* ================================================================= *)
(** ** Vocabulary of the statements *)

(** The entries of an index list other than the "not found" marker. *)
Definition resolved (idxs : list Z) : list Z :=
  filter (fun i => negb (i =? -1)) idxs.

(** The largest of a list of column indexes, 0 when there is none. *)
Definition max_index (idxs : list Z) : Z := fold_right Z.max 0 idxs.

(** Field number [i] of a line that was cut into the fields [fs]. *)
Definition field_of (fs : list string) (i : Z) : string :=
  nth (Z.to_nat i) fs EmptyString.

Definition is_member (names : list string) (f : string) : bool :=
  if in_dec string_dec f names then true else false.

(** The positions of the declared fields whose name is not excluded, in
    declared order. *)
Definition kept_positions (excluded declared : list string) : list Z :=
  map Z.of_nat
    (filter (fun j => negb (is_member excluded (nth j declared EmptyString)))
       (seq 0 (List.length declared))).

(** The declared fields whose name is not excluded, in declared order. *)
Definition without (excluded declared : list string) : list string :=
  filter (fun f => negb (is_member excluded f)) declared.

(** What a header line shows for an output index, with or without the
    rewriting of the type "time". *)
Definition type_cell (rewrite : bool) (fs : list string) (idxval : Z)
  : string :=
  if idxval =? -1 then EmptyString
  else if (rewrite && String.eqb "time" (field_of fs idxval))%bool
       then "string"
       else field_of fs idxval.

Section Cells.

Context {clock : TimeText}.

(** Is column [i] converted on data lines? *)
Definition converted (bopts : useropts) (lp : logparams) (i : Z) : bool :=
  (negb (Opt.timeconv bopts =? 0)
   && nth (Z.to_nat i) (time_cols lp) false)%bool.

(** What a data line with the fields [fs] shows for the entry [idxval] of
    "out_indexes". *)
Definition data_cell (bopts : useropts) (lp : logparams) (fs : list string)
  (idxval : Z) : string :=
  if idxval =? -1 then EmptyString
  else if converted bopts lp idxval
       then fst (time_text (Opt.timeconv bopts) (Opt.timefmt bopts)
                   (field_of fs idxval))
       else field_of fs idxval.

Definition data_diags (bopts : useropts) (lp : logparams) (fs : list string)
  (idxval : Z) : list string :=
  if idxval =? -1 then []
  else if (converted bopts lp idxval
           && snd (time_text (Opt.timeconv bopts) (Opt.timefmt bopts)
                     (field_of fs idxval)))%bool
       then [trunc_diag] else [].

(** What a header line with the tag [tag] and the further fields [fs]
    shows for the entry [idxval] of "out_indexes". *)
Definition header_cell (bopts : useropts) (tag : string) (fs : list string)
  (idxval : Z) : string :=
  type_cell (negb (Opt.timeconv bopts =? 0) && String.eqb tag "#types")
    fs idxval.

End Cells.

(** The text that the output loop adds to a line: the cells, each one after
    a separator unless it is the first thing on the line. *)
Fixpoint loop_text (sep : string) (firstdone : bool) (cells : list string)
  : string :=
  match cells with
  | [] => EmptyString
  | c :: rest =>
      ((if firstdone then sep else EmptyString)
       ++ c ++ loop_text sep true rest)%string
  end.

(** Every output index is the "not found" marker or lies below
    "idx_range". *)
Definition indexes_in_range (lp : logparams) : Prop :=
  0 <= idx_range lp
  /\ Forall (fun i => i = -1 \/ 0 <= i < idx_range lp) (out_indexes lp).

(** Two parameter records that agree on the output indexes and on the
    size of the scratch array. *)
Definition same_columns (lp1 lp2 : logparams) : Prop :=
  out_indexes lp2 = out_indexes lp1 /\ idx_range lp2 = idx_range lp1
  /\ tmp_slots lp2 = tmp_slots lp1 /\ num_fields lp2 = num_fields lp1.

(** The time flags cover every column below "idx_range" whenever time
    conversion was asked for. *)
Definition time_cols_ready (bopts : useropts) (lp : logparams) : Prop :=
  Opt.timeconv bopts <> 0 ->
  idx_range lp <= Z.of_nat (List.length (time_cols lp)).

(** A line of tab-separated fields. *)
Definition tsv (fs : list string) : string :=
  join (String TAB EmptyString) fs.

(** What the parameters and the flag "prev_fields_line" satisfy throughout
    a run: the output indexes lie below "idx_range", the scratch array has
    room for the fields of a data line, and of a header line once a #fields
    line was read, and the time flags are in place except between a #fields
    line and its #types line. *)
Definition params_ok (bopts : useropts) (l : logparams) (pfl : bool) : Prop :=
  indexes_in_range l
  /\ idx_range l <= tmp_slots l
  /\ (pfl = true -> idx_range l + 1 <= tmp_slots l)
  /\ (pfl = false -> time_cols_ready bopts l).

Definition state_ok (bopts : useropts) (st : state) : Prop :=
  params_ok bopts (lp st) (prev_fields_line st).

(** A stand-in for the C library on runs that convert no time: the field
    is left as it is. *)
Definition no_clock : TimeText := fun _ _ field => (field, false).

(** The bytes of an input whose lines each end with a line feed. *)
Definition text (lines : list string) : string :=
  String.concat EmptyString
    (map (fun l => (l ++ String LF EmptyString)%string) lines).

(** The output separator that the options ask for, given the input
    separator: the override when there is one. *)
Definition effective_ofs (bopts : useropts) (input_sep : ascii) : ascii :=
  if is_nul (char0 (Opt.ofs bopts)) then input_sep
  else char0 (Opt.ofs bopts).

(** Has a #separator line been read? *)
Definition seen_separator (lines : list string) : bool :=
  existsb (starts_with "#separator ") lines.

(** The fields still to come from a [strsep] pointer. *)
Definition rest_fields (d : ascii) (p : option string) : list string :=
  match p with
  | None => []
  | Some s => all_fields d s
  end.

(** Number of header blocks begun in [lines]: the header lines that follow
    a line that is not one, or start the input when [prev_hdr] is false. *)
Fixpoint header_blocks_from (prev_hdr : bool) (lines : list string) : Z :=
  match lines with
  | [] => 0
  | l :: rest =>
      (if (is_header l && negb prev_hdr)%bool then 1 else 0)
      + header_blocks_from (is_header l) rest
  end.

Definition header_blocks (lines : list string) : Z :=
  header_blocks_from false lines.

(** Properties of the last line read, false before the first one. *)
Definition last_line_is (p : string -> bool) (lines : list string) : bool :=
  match rev lines with
  | [] => false
  | l :: _ => p l
  end.

(** The bookkeeping of the driver after the lines [pre]. *)
Definition tracks (pre : list string) (st : state) : Prop :=
  headers_seen st = Z.min 2 (header_blocks pre)
  /\ prev_line_hdr st = last_line_is is_header pre
  /\ prev_fields_line st = last_line_is (starts_with "#fields") pre.

(** The last header line read, if any. *)
Definition last_header (lines : list string) : option string :=
  find is_header (rev lines).

(* ================================================================= *)
(** ** Further functions and vocabulary *)

(** Return whether or not "needle" is contained in "haystack" (0=false,
    1=true). *)
Fixpoint contains (haystack : list Z) (needle : Z) : Z :=
  match haystack with
  | [] => 0
  | h :: t => if h =? needle then 1 else contains t needle
  end.

Definition short_header_diag : string :=
  "bro-cut: log header does not have enough fields".

(** The diagnostics after which the loop goes on, and those that end it. *)
Definition recoverable (d : string) : Prop :=
  d = skip_diag \/ d = trunc_diag.

Definition fatal_diag (d : string) : Prop :=
  d = missing_types_diag \/ d = missing_fields_diag
  \/ d = short_header_diag.

(** A line of text as a log holds it: no line feed and no NUL in it. *)
Fixpoint plain (s : string) : bool :=
  match s with
  | EmptyString => true
  | String c r => (negb (Ascii.eqb c LF) && negb (is_nul c) && plain r)%bool
  end.

(** Does the line declare the NUL byte as the input separator? *)
Definition declares_nul (line : string) : bool :=
  (starts_with "#separator " line
   && is_nul (parsesep (offset 11 line)))%bool.

(** The options [bopts] with another negate flag and column list. *)
Definition with_request (bopts : useropts) (neg : Z) (cols : list string)
  : useropts :=
  {| Opt.showhdr := Opt.showhdr bopts; Opt.negate := neg;
     Opt.timeconv := Opt.timeconv bopts; Opt.columns := cols;
     Opt.ofs := Opt.ofs bopts; Opt.timefmt := Opt.timefmt bopts |}.

(* ================================================================= *)
(** ** The separator resolver *)

Section Separator.

Lemma hexval_bounds c d : hexval c = Some d -> 0 <= d <= 15.
Proof.
  unfold hexval.
  destruct (_ && _)%bool eqn:E1; [intros [= <-]; lia|].
  destruct ((97 <=? _) && _)%bool eqn:E2; [intros [= <-]; lia|].
  destruct ((65 <=? _) && _)%bool eqn:E3; [intros [= <-]; lia|discriminate].
Qed.

Lemma hexval_plain c d :
  hexval c = Some d ->
  isspace c = false /\ is_x c = false
  /\ Ascii.eqb c "-" = false /\ Ascii.eqb c "+" = false.
Proof.
  destruct c as [[] [] [] [] [] [] [] []]; vm_compute;
    intros H; try discriminate H; repeat split.
Qed.

Lemma hex_run_stop acc s : hexval (char0 s) = None -> hex_run acc s = acc.
Proof.
  destruct s as [|c r]; simpl; [reflexivity|].
  intros ->. reflexivity.
Qed.

Lemma hex_run_digit acc c r d :
  hexval c = Some d -> hex_run acc (String c r) = hex_run (16 * acc + d) r.
Proof. intros H. cbn [hex_run]. rewrite H. reflexivity. Qed.

Lemma strtol16_two_digits h1 h2 rest a b :
  hexval h1 = Some a -> hexval h2 = Some b -> hexval (char0 rest) = None ->
  strtol16 (String h1 (String h2 rest)) = 16 * a + b.
Proof.
  intros Ha Hb Hr.
  destruct (hexval_plain _ _ Ha) as (Hs & _ & Hm & Hp).
  destruct (hexval_plain _ _ Hb) as (_ & Hx & _ & _).
  pose proof (hexval_bounds _ _ Ha). pose proof (hexval_bounds _ _ Hb).
  unfold strtol16. simpl skip_space. rewrite Hs, Hm, Hp.
  assert (E : skip_0x (String h1 (String h2 rest))
              = String h1 (String h2 rest)).
  { unfold skip_0x. destruct rest; [reflexivity|].
    rewrite Hx, andb_false_r. reflexivity. }
  rewrite E, (hex_run_digit _ _ _ _ Ha), (hex_run_digit _ _ _ _ Hb).
  rewrite hex_run_stop by assumption.
  replace (16 * (16 * 0 + a) + b) with (16 * a + b) by lia.
  assert (L : (LONG_MAX <? 16 * a + b) = false)
    by (apply Z.ltb_ge; unfold LONG_MAX; lia).
  rewrite L. reflexivity.
Qed.

Lemma strtol16_no_digit s :
  hexval (char0 s) = None -> isspace (char0 s) = false ->
  Ascii.eqb (char0 s) "-" = false -> Ascii.eqb (char0 s) "+" = false ->
  strtol16 s = 0.
Proof.
  intros Hh Hs Hm Hp. unfold strtol16.
  destruct s as [|c r]; [reflexivity|]. simpl in Hh, Hs, Hm, Hp.
  simpl skip_space. rewrite Hs, Hm, Hp.
  assert (E : hex_run 0 (skip_0x (String c r)) = 0).
  { assert (S0 : skip_0x (String c r) = String c r).
    { unfold skip_0x. destruct r as [|x [|h r']]; try reflexivity.
      destruct (Ascii.eqb_spec c "0") as [->|_]; [discriminate Hh|].
      reflexivity. }
    rewrite S0. cbn [hex_run]. rewrite Hh. reflexivity. }
  rewrite E. reflexivity.
Qed.

End Separator.

(** C5 (as amended).  For every separator specification: without the
    two-character prefix of a hex escape the resolver returns the first
    byte of the specification; with it, the low byte of what [strtol] reads
    in base 16 after the prefix, which for two hex digits followed by no
    further digit is their byte value, and which is the NUL byte, not the
    first character, when no number can be read; the escape of 09 and a
    literal tab resolve to the same byte.  The resolver is a total
    function: it never aborts. *)
Theorem parsesep_resolves (sepstr : string) :
  (starts_with "\x" sepstr = false -> parsesep sepstr = char0 sepstr)
  /\ (forall digits, sepstr = ("\x" ++ digits)%string ->
        parsesep sepstr = char_of_long (strtol16 digits))
  /\ (forall h1 h2 rest a b,
        sepstr = ("\x" ++ String h1 (String h2 rest))%string ->
        hexval h1 = Some a -> hexval h2 = Some b ->
        hexval (char0 rest) = None ->
        parsesep sepstr = ascii_of_N (Z.to_N (16 * a + b)))
  /\ (forall rest,
        sepstr = ("\x" ++ rest)%string ->
        hexval (char0 rest) = None -> isspace (char0 rest) = false ->
        Ascii.eqb (char0 rest) "-" = false ->
        Ascii.eqb (char0 rest) "+" = false ->
        parsesep sepstr = NUL)
  /\ parsesep "\x09" = parsesep (String TAB EmptyString).
Proof.
  repeat split.
  - intros H. unfold parsesep. rewrite H. reflexivity.
  - intros digits ->. reflexivity.
  - intros h1 h2 rest a b -> Ha Hb Hr.
    pose proof (hexval_bounds _ _ Ha). pose proof (hexval_bounds _ _ Hb).
    change (parsesep ("\x" ++ String h1 (String h2 rest)))
      with (char_of_long (strtol16 (String h1 (String h2 rest)))).
    rewrite (strtol16_two_digits _ _ _ _ _ Ha Hb Hr).
    unfold char_of_long. rewrite Z.mod_small by lia. reflexivity.
  - intros rest -> Hh Hs Hm Hp.
    change (parsesep ("\x" ++ rest)) with (char_of_long (strtol16 rest)).
    rewrite strtol16_no_digit by assumption. reflexivity.
Qed.

Lemma parsesep_resolves_witness :
  parsesep "\x1f" = ascii_of_N 31 /\ parsesep "\xzz" = NUL
  /\ parsesep "abc" = "a"%char.
Proof.
  destruct (parsesep_resolves "\x1f") as (_ & _ & H & _).
  destruct (parsesep_resolves "\xzz") as (_ & _ & _ & H' & _).
  destruct (parsesep_resolves "abc") as (H'' & _).
  split; [|split].
  - apply (H "1"%char "f"%char EmptyString 1 15); reflexivity.
  - apply (H' "zz"); reflexivity.
  - apply H''. reflexivity.
Defined.

(** C5, the claim as stated fails: a malformed hex escape resolves to the
    NUL byte and not to the backslash the specification starts with, and
    an escape with three digits is not the byte of its first two. *)
Lemma parsesep_malformed_counterexample :
  parsesep "\xzz" = NUL
  /\ parsesep "\xzz" <> char0 "\xzz"
  /\ parsesep "\x091" <> ascii_of_N 9.
Proof.
  split; [reflexivity|]. split; vm_compute; discriminate.
Qed.

(* ================================================================= *)
(** ** Cutting a line into fields *)

Section Fields.

Variable d : ascii.

Lemma tokens_split s :
  tokens d s =
  let (t, rest) := split_at d s in
  t :: match rest with None => [] | Some r => tokens d r end.
Proof.
  induction s as [|c r IH]; simpl; [reflexivity|].
  destruct (Ascii.eqb c d); [reflexivity|].
  rewrite IH. destruct (split_at d r) as [t rest]. reflexivity.
Qed.

Lemma tokens_length s :
  Z.of_nat (List.length (tokens d s)) = count_char d s + 1.
Proof.
  induction s as [|c r IH]; [reflexivity|].
  cbn [tokens count_char]. destruct (Ascii.eqb c d).
  - cbn [List.length]. lia.
  - rewrite tokens_split in *. destruct (split_at d r). cbn [List.length] in *.
    lia.
Qed.

Lemma all_fields_length s : (1 <= List.length (all_fields d s))%nat.
Proof.
  unfold all_fields. destruct (is_nul d); [simpl; lia|].
  rewrite tokens_split. destruct (split_at d s). simpl. lia.
Qed.

Lemma strsep_fields s :
  exists t p, strsep d (Some s) = Some (t, p)
              /\ all_fields d s = t :: rest_fields d p.
Proof.
  unfold strsep, all_fields, rest_fields, all_fields.
  destruct (is_nul d) eqn:E.
  - exists s, None. split; reflexivity.
  - rewrite tokens_split. destruct (split_at d s) as [t p].
    exists t, p. split; [reflexivity|]. destruct p; reflexivity.
Qed.

Lemma take_fields_rest n : forall p,
  take_fields d n p =
  if (n <=? List.length (rest_fields d p))%nat
  then Some (firstn n (rest_fields d p)) else None.
Proof.
  induction n as [|n IH]; intros p; [reflexivity|].
  destruct p as [s|]; [|reflexivity].
  destruct (strsep_fields s) as (t & p & E & F).
  cbn [take_fields]. rewrite E, IH. cbn [rest_fields]. rewrite F.
  cbn [List.length firstn]. change (S n <=? S ?m)%nat with (n <=? m)%nat.
  destruct (n <=? _)%nat; reflexivity.
Qed.

(** Asking [strsep] for [n] fields gives the first [n] fields of the line,
    and fails exactly when the line has fewer. *)
Lemma take_fields_line n s :
  take_fields d n (Some s) =
  if (n <=? List.length (all_fields d s))%nat
  then Some (firstn n (all_fields d s)) else None.
Proof. apply (take_fields_rest n (Some s)). Qed.

End Fields.

Lemma at_index_firstn (fs : list string) (n : nat) (i : Z) :
  0 <= i < Z.of_nat n -> (n <= List.length fs)%nat ->
  at_index (firstn n fs) i = Some (field_of fs i).
Proof.
  intros Hi Hn. unfold at_index, field_of.
  destruct (Z.ltb_spec i 0); [lia|].
  rewrite nth_error_firstn.
  destruct (Nat.ltb_spec (Z.to_nat i) n); [|lia].
  apply nth_error_nth'. lia.
Qed.

Lemma at_index_nth {A : Type} (l : list A) (i : Z) (dflt : A) :
  0 <= i < Z.of_nat (List.length l) ->
  at_index l i = Some (nth (Z.to_nat i) l dflt).
Proof.
  intros Hi. unfold at_index. destruct (Z.ltb_spec i 0); [lia|].
  apply nth_error_nth'. lia.
Qed.

(* ================================================================= *)
(** ** Looking names up *)

Section Lookup.

Lemma string_index_from_range i haystack needle :
  string_index_from i haystack needle = -1
  \/ i <= string_index_from i haystack needle
       < i + Z.of_nat (List.length haystack).
Proof.
  revert i. induction haystack as [|h t IH]; intros i; [left; reflexivity|].
  cbn [string_index_from List.length]. destruct (String.eqb h needle).
  - right. lia.
  - destruct (IH (i + 1)) as [E|E]; [left; exact E|right; lia].
Qed.

Lemma string_index_range haystack needle :
  string_index haystack needle = -1
  \/ 0 <= string_index haystack needle < Z.of_nat (List.length haystack).
Proof. apply (string_index_from_range 0). Qed.

Lemma string_index_from_missing i haystack needle :
  0 <= i ->
  (string_index_from i haystack needle = -1 <-> ~ In needle haystack).
Proof.
  revert i. induction haystack as [|h t IH]; intros i Hi.
  - simpl. tauto.
  - cbn [string_index_from In]. destruct (String.eqb_spec h needle) as [->|N].
    + split; [lia|]. intros H. exfalso. apply H. left. reflexivity.
    + rewrite (IH (i + 1)) by lia. tauto.
Qed.

Lemma string_index_missing haystack needle :
  string_index haystack needle = -1 <-> ~ In needle haystack.
Proof. apply string_index_from_missing. lia. Qed.

(** First-match lookup: the field at the index found is the needle, and no
    earlier field is. *)
Lemma string_index_from_first i haystack needle :
  string_index_from i haystack needle <> -1 -> 0 <= i ->
  let k := Z.to_nat (string_index_from i haystack needle - i) in
  nth_error haystack k = Some needle
  /\ forall j, (j < k)%nat -> nth_error haystack j <> Some needle.
Proof.
  revert i. induction haystack as [|h t IH]; intros i Hne Hi;
    [contradiction|].
  cbn [string_index_from] in *.
  destruct (String.eqb_spec h needle) as [->|N].
  - rewrite Z.sub_diag. simpl. split; [reflexivity|]. intros j Hj. lia.
  - destruct (string_index_from_range (i + 1) t needle) as [E|E];
      [contradiction|].
    destruct (IH (i + 1) Hne ltac:(lia)) as [F G].
    replace (Z.to_nat (string_index_from (i + 1) t needle - i))
      with (S (Z.to_nat (string_index_from (i + 1) t needle - (i + 1))))
      by lia.
    simpl. split; [exact F|]. intros [|j] Hj; simpl.
    + congruence.
    + apply G. lia.
Qed.

Lemma string_index_first haystack needle :
  string_index haystack needle <> -1 ->
  let k := Z.to_nat (string_index haystack needle) in
  nth_error haystack k = Some needle
  /\ forall j, (j < k)%nat -> nth_error haystack j <> Some needle.
Proof.
  intros H. pose proof (string_index_from_first 0 haystack needle H) as F.
  rewrite Z.sub_0_r in F. apply F. lia.
Qed.

Lemma is_member_index names f :
  is_member names f = negb (string_index names f =? -1).
Proof.
  unfold is_member. destruct (in_dec string_dec f names) as [I|I].
  - destruct (Z.eqb_spec (string_index names f) (-1)) as [E|E];
      [|reflexivity].
    apply string_index_missing in E. contradiction.
  - apply string_index_missing in I. rewrite I. reflexivity.
Qed.

End Lookup.

(* ================================================================= *)
(** ** The range of the output indexes *)

Section Range.

Lemma fold_maxval (l : list Z) : forall m,
  fold_left (fun maxval v => if maxval <? v then v else maxval) l m
  = Z.max m (fold_right Z.max 0 (resolved l)) \/ m < 0.
Proof.
  induction l as [|v l IH]; intros m; cbn [fold_left].
  - cbn. destruct (Z.ltb_spec m 0); [right; assumption|left; lia].
  - destruct (Z.ltb_spec m 0); [right; assumption|left].
    destruct (IH (if m <? v then v else m)) as [E|E].
    + rewrite E. unfold resolved. cbn [filter].
      destruct (Z.eqb_spec v (-1)) as [->|N]; cbn [negb fold_right].
      * destruct (Z.ltb_spec m (-1)); [lia|reflexivity].
      * fold (resolved l). destruct (Z.ltb_spec m v); lia.
    + destruct (Z.ltb_spec m v); lia.
Qed.

(** The "not found" marker never raises the maximum. *)
Lemma maxval_of_resolved (stored : list Z) :
  maxval_of stored = max_index (resolved stored).
Proof.
  unfold maxval_of, max_index.
  destruct (fold_maxval stored 0) as [E|E]; [|lia].
  rewrite E. apply Z.max_r. clear E.
  generalize (resolved stored). intros l.
  induction l; cbn [fold_right]; lia.
Qed.

Lemma max_index_nonneg (l : list Z) : 0 <= max_index l.
Proof. induction l; cbn [max_index fold_right]; unfold max_index in *; lia. Qed.

Lemma max_index_bound (l : list Z) i : In i l -> i <= max_index l.
Proof.
  induction l as [|v l IH]; [contradiction|].
  cbn [max_index fold_right In]. unfold max_index in IH.
  intros [->|H]; [lia|]. specialize (IH H). lia.
Qed.

Lemma max_index_attained (l : list Z) :
  l <> [] -> (forall i, In i l -> 0 <= i) -> In (max_index l) l.
Proof.
  induction l as [|v l IH]; [congruence|]. intros _ Hpos.
  cbn [max_index fold_right]. fold (max_index l).
  destruct l as [|w l'].
  - cbn. left. specialize (Hpos v (or_introl eq_refl)). lia.
  - destruct (Z.max_spec v (max_index (w :: l'))) as [[_ E]|[_ E]];
      rewrite E.
    + right. apply IH; [congruence|]. intros i Hi. apply Hpos. right. exact Hi.
    + left. reflexivity.
Qed.

Lemma resolved_in (l : list Z) i : In i (resolved l) <-> In i l /\ i <> -1.
Proof.
  unfold resolved. rewrite filter_In.
  destruct (Z.eqb_spec i (-1)); cbn; intuition congruence.
Qed.

End Range.

(* ================================================================= *)
(** ** The "-n" branch *)

Section Negation.

Lemma negated_from_positions cols fields : forall idx,
  negated_from idx cols fields =
  map (fun j => idx + Z.of_nat j)
    (filter (fun j => negb (is_member cols (nth j fields EmptyString)))
       (seq 0 (List.length fields))).
Proof.
  induction fields as [|f r IH]; intros idx; [reflexivity|].
  cbn [negated_from List.length seq filter nth].
  rewrite is_member_index, negb_involutive.
  destruct (string_index cols f =? -1); cbn [map];
    rewrite <- seq_shift, filter_map_swap, map_map, IH; cbn beta iota;
    [f_equal; [lia|]|]; apply map_ext; intros j; lia.
Qed.

Lemma negated_positions cols fields :
  negated_from 0 cols fields = kept_positions cols fields.
Proof.
  rewrite negated_from_positions. unfold kept_positions.
  apply map_ext. intros j. lia.
Qed.

(** The kept positions select the declared names that are not excluded. *)
Lemma kept_positions_fields cols fields :
  map (field_of fields) (kept_positions cols fields) = without cols fields.
Proof.
  unfold kept_positions, without, field_of. rewrite map_map.
  erewrite map_ext by (intros j; rewrite Nat2Z.id; reflexivity).
  induction fields as [|f r IH]; [reflexivity|].
  cbn [List.length seq filter nth].
  destruct (negb (is_member cols f)); cbn [map];
    rewrite <- seq_shift, filter_map_swap, map_map; cbn beta iota;
    rewrite IH; reflexivity.
Qed.

Lemma kept_positions_in cols fields i :
  In i (kept_positions cols fields) <->
  0 <= i < Z.of_nat (List.length fields)
  /\ ~ In (field_of fields i) cols.
Proof.
  unfold kept_positions, field_of. rewrite in_map_iff. split.
  - intros (j & <- & H). apply filter_In in H. destruct H as [H K].
    apply in_seq in H. rewrite Nat2Z.id. split; [lia|].
    unfold is_member in K. destruct (in_dec _ _ _); [discriminate|assumption].
  - intros [H K]. exists (Z.to_nat i). split; [lia|].
    apply filter_In. split; [apply in_seq; lia|].
    unfold is_member. destruct (in_dec _ _ _); [contradiction|reflexivity].
Qed.

Lemma kept_positions_sorted cols fields :
  StronglySorted Z.lt (kept_positions cols fields).
Proof.
  unfold kept_positions.
  assert (S : forall a n, StronglySorted lt (seq a n)).
  { intros a n. revert a. induction n as [|n IH]; intros a; cbn [seq];
      constructor; [apply IH|].
    apply Forall_forall. intros x Hx. apply in_seq in Hx. lia. }
  assert (F : forall (p : nat -> bool) l,
             StronglySorted lt l -> StronglySorted lt (filter p l)).
  { intros p l H. induction H as [|a l H IH A]; cbn [filter];
      [constructor|].
    destruct (p a); [|exact IH]. constructor; [exact IH|].
    apply Forall_forall. intros x Hx. apply filter_In in Hx.
    rewrite Forall_forall in A. apply A. tauto. }
  assert (M : forall l, StronglySorted lt l ->
                        StronglySorted Z.lt (map Z.of_nat l)).
  { intros l H. induction H as [|a l H IH A]; cbn [map]; constructor;
      [exact IH|].
    apply Forall_forall. intros x Hx. apply in_map_iff in Hx.
    destruct Hx as (y & <- & Hy). rewrite Forall_forall in A.
    specialize (A y Hy). lia. }
  apply M, F, S.
Qed.

End Negation.

(* ================================================================= *)
(** ** What the projector writes *)

Section Output.

Context {clock : TimeText}.

Lemma append_empty_r (s : string) : (s ++ "")%string = s.
Proof. induction s as [|c s IH]; cbn; [|rewrite IH]; reflexivity. Qed.

Lemma loop_text_tag sep cells : forall tag,
  (tag ++ loop_text sep true cells)%string = join sep (tag :: cells).
Proof.
  induction cells as [|c r IH]; intros tag.
  - apply append_empty_r.
  - cbn [loop_text]. rewrite IH. reflexivity.
Qed.

Lemma loop_text_plain sep cells : loop_text sep false cells = join sep cells.
Proof.
  destruct cells as [|c r]; [reflexivity|].
  cbn [loop_text]. apply (loop_text_tag sep r c).
Qed.

Lemma output_loop_cells hdr tc ttc lp bopts tmp
  (cell : Z -> string) (diags : Z -> list string) idxs : forall fd,
  (forall i, In i idxs ->
     output_field hdr tc ttc lp bopts tmp i = Some (cell i, diags i)) ->
  output_loop hdr tc ttc lp bopts tmp idxs fd
  = Some (loop_text (buf2 (ofs lp)) fd (map cell idxs), flat_map diags idxs).
Proof.
  induction idxs as [|i r IH]; intros fd H; [reflexivity|].
  cbn [output_loop]. rewrite (H i (or_introl eq_refl)).
  rewrite (IH true) by (intros j Hj; apply H; right; exact Hj).
  reflexivity.
Qed.

Lemma output_field_data lp bopts fs n idx :
  (n <= List.length fs)%nat -> Z.of_nat n = idx_range lp ->
  idx = -1 \/ 0 <= idx < idx_range lp ->
  (Opt.timeconv bopts <> 0 ->
   idx_range lp <= Z.of_nat (List.length (time_cols lp))) ->
  output_field false (negb (Opt.timeconv bopts =? 0)) false lp bopts
    (firstn n fs) idx
  = Some (data_cell bopts lp fs idx, data_diags bopts lp fs idx).
Proof.
  intros Hn En Hi Ht. unfold output_field, data_cell, data_diags, converted.
  destruct Hi as [->|Hi]; [reflexivity|].
  destruct (Z.eqb_spec idx (-1)); [lia|].
  rewrite Z.add_0_r, at_index_firstn by lia. cbn [andb].
  destruct (Z.eqb_spec (Opt.timeconv bopts) 0) as [E|E]; cbn [negb andb];
    [reflexivity|].
  rewrite (at_index_nth _ _ false) by (specialize (Ht E); lia).
  destruct (nth _ (time_cols lp) false); [|reflexivity].
  destruct (time_text _ _ _) as [tbuf [|]]; reflexivity.
Qed.

Lemma output_field_header lp bopts tag fs n idx :
  (n <= List.length (tag :: fs))%nat -> Z.of_nat n = idx_range lp + 1 ->
  idx = -1 \/ 0 <= idx < idx_range lp ->
  output_field true false
    (negb (Opt.timeconv bopts =? 0) && true && String.eqb tag "#types")
    lp bopts (firstn n (tag :: fs)) idx
  = Some (header_cell bopts tag fs idx, []).
Proof.
  intros Hn En Hi. unfold output_field, header_cell, type_cell.
  destruct Hi as [->|Hi]; [reflexivity|].
  destruct (Z.eqb_spec idx (-1)); [lia|].
  rewrite at_index_firstn by lia.
  assert (F : field_of (tag :: fs) (idx + 1) = field_of fs idx).
  { unfold field_of. replace (Z.to_nat (idx + 1)) with (S (Z.to_nat idx))
      by lia. reflexivity. }
  rewrite F, andb_true_r.
  destruct (_ && _ && _)%bool; reflexivity.
Qed.

(** A data line: skipped with a diagnostic when it has fewer fields than
    "idx_range", and otherwise written as one record, one cell for each
    entry of "out_indexes". *)
Lemma output_indexes_data line lp bopts :
  indexes_in_range lp -> idx_range lp <= tmp_slots lp ->
  (Opt.timeconv bopts <> 0 ->
   idx_range lp <= Z.of_nat (List.length (time_cols lp))) ->
  let fs := all_fields (ifs lp) line in
  output_indexes false line lp bopts =
  if Z.of_nat (List.length fs) <? idx_range lp
  then Some ([], [skip_diag])
  else Some ([join (buf2 (ofs lp))
                (map (data_cell bopts lp fs) (out_indexes lp))],
             flat_map (data_diags bopts lp fs) (out_indexes lp)).
Proof.
  intros [R I] Hs T fs. unfold output_indexes.
  rewrite Z.add_0_r. destruct (Z.ltb_spec (tmp_slots lp) (idx_range lp));
    [lia|].
  rewrite take_fields_line. fold fs.
  destruct (Z.ltb_spec (Z.of_nat (List.length fs)) (idx_range lp)) as [L|L];
    destruct (Nat.leb_spec (Z.to_nat (idx_range lp)) (List.length fs));
    try lia; [reflexivity|].
  rewrite andb_false_r, andb_true_r.
  rewrite (output_loop_cells _ _ _ _ _ _ (data_cell bopts lp fs)
             (data_diags bopts lp fs)).
  - rewrite loop_text_plain. reflexivity.
  - intros i Hi. rewrite Forall_forall in I.
    apply output_field_data; [assumption|lia|apply I; exact Hi|exact T].
Qed.

(** A header line: the tag, then one cell for each entry of
    "out_indexes". *)
Lemma output_indexes_header line lp bopts :
  indexes_in_range lp -> idx_range lp + 1 <= tmp_slots lp ->
  let fs := all_fields (ifs lp) line in
  output_indexes true line lp bopts =
  if Z.of_nat (List.length fs) <? idx_range lp + 1
  then Some ([], [skip_diag])
  else Some ([join (buf2 (ofs lp))
                (hd EmptyString fs
                 :: map (header_cell bopts (hd EmptyString fs) (tl fs))
                      (out_indexes lp))],
             []).
Proof.
  intros [R I] Hs fs. unfold output_indexes.
  destruct (Z.ltb_spec (tmp_slots lp) (idx_range lp + 1)); [lia|].
  rewrite take_fields_line. fold fs.
  destruct (Z.ltb_spec (Z.of_nat (List.length fs)) (idx_range lp + 1))
    as [L|L];
    destruct (Nat.leb_spec (Z.to_nat (idx_range lp + 1)) (List.length fs));
    try lia; [reflexivity|].
  destruct fs as [|tag rest] eqn:F; [cbn in L; lia|].
  replace (Z.to_nat (idx_range lp + 1)) with (S (Z.to_nat (idx_range lp)))
    by lia.
  cbn [firstn at_index Z.ltb Z.compare Z.to_nat nth_error hd tl].
  change (tag :: firstn (Z.to_nat (idx_range lp)) rest)
    with (firstn (S (Z.to_nat (idx_range lp))) (tag :: rest)).
  cbn [negb]. rewrite andb_false_r.
  rewrite (output_loop_cells _ _ _ _ _ _ (header_cell bopts tag rest)
             (fun _ => [])).
  - rewrite loop_text_tag.
    assert (N : forall l : list Z,
               flat_map (fun _ : Z => @nil string) l = [])
      by (intros l; induction l; cbn; auto).
    rewrite N. reflexivity.
  - intros i Hi. rewrite Forall_forall in I.
    apply output_field_header; [cbn [List.length] in *; lia|lia|].
    apply I; exact Hi.
Qed.

End Output.

(* ================================================================= *)
(** ** The column resolver *)

Section Resolver.

Lemma max_index_le (l : list Z) b :
  0 <= b -> (forall i, In i l -> i <= b) -> max_index l <= b.
Proof.
  intros Hb. induction l as [|v l IH]; intros H; cbn [max_index fold_right];
    [exact Hb|].
  fold (max_index l). specialize (H v (or_introl eq_refl)) as Hv.
  assert (max_index l <= b)
    by (apply IH; intros i Hi; apply H; right; exact Hi).
  lia.
Qed.

Lemma maxval_range (oi : list Z) n :
  1 <= n -> (forall i, In i oi -> i = -1 \/ 0 <= i < n) ->
  0 <= maxval_of oi < n
  /\ Forall (fun i => i = -1 \/ 0 <= i < maxval_of oi + 1) oi.
Proof.
  intros Hn H. rewrite maxval_of_resolved. split.
  - split; [apply max_index_nonneg|].
    assert (max_index (resolved oi) <= n - 1); [|lia].
    apply max_index_le; [lia|]. intros i Hi. apply resolved_in in Hi.
    destruct Hi as [Hi N]. destruct (H i Hi); lia.
  - apply Forall_forall. intros i Hi.
    destruct (Z.eq_dec i (-1)) as [E|E]; [left; exact E|right].
    destruct (H i Hi) as [|R]; [contradiction|].
    assert (i <= max_index (resolved oi)); [|lia].
    apply max_index_bound, resolved_in. split; assumption.
Qed.

Lemma count_char_tokens d line :
  count_char d line + 1 = Z.of_nat (List.length (tokens d line))
  /\ 1 <= count_char d line + 1.
Proof.
  rewrite tokens_length. split; [reflexivity|].
  rewrite <- tokens_length, tokens_split. destruct (split_at d line).
  cbn [List.length]. lia.
Qed.

Lemma iota_in n i : In i (iota n) <-> 0 <= i < Z.of_nat n.
Proof.
  unfold iota. rewrite in_map_iff. split.
  - intros (j & <- & H). apply in_seq in H. lia.
  - intros H. exists (Z.to_nat i). split; [lia|apply in_seq; lia].
Qed.

(** The values stored by [find_output_indexes], in each of its branches. *)
Lemma stored_indexes_range line lp bopts :
  let n := count_char (ifs lp) line + 1 in
  let fields := tokens (ifs lp) line in
  forall i,
    In i (if Opt.negate bopts =? 0
          then map (string_index fields) (Opt.columns bopts)
          else negated_from 0 (Opt.columns bopts) fields) ->
    i = -1 \/ 0 <= i < n.
Proof.
  intros n fields i. destruct (count_char_tokens (ifs lp) line) as [E _].
  fold n fields in E. destruct (Opt.negate bopts =? 0).
  - intros H. apply in_map_iff in H. destruct H as (c & <- & _).
    rewrite E. apply string_index_range.
  - rewrite negated_positions, kept_positions_in. intros [H _]. right. lia.
Qed.

(** With a separator that is not NUL the resolver returns, with every
    output index below "idx_range", "idx_range" at least 1 and at most the
    number of declared fields, and room in "tmp_fields" for the fields of a
    header line. *)
Lemma find_output_indexes_ok line lp bopts :
  is_nul (ifs lp) = false ->
  exists lp',
    find_output_indexes line lp bopts = Some lp'
    /\ indexes_in_range lp'
    /\ 1 <= idx_range lp' <= num_fields lp'
    /\ tmp_slots lp' = num_fields lp' + 1
    /\ num_fields lp' = Z.of_nat (List.length (all_fields (ifs lp) line))
    /\ ifs lp' = ifs lp /\ ofs lp' = ofs lp
    /\ time_cols lp' = time_cols lp.
Proof.
  intros N. unfold find_output_indexes, all_fields. rewrite N.
  destruct (count_char_tokens (ifs lp) line) as [E P].
  destruct (Opt.columns bopts) as [|c cs] eqn:C.
  - eexists. split; [reflexivity|]. cbn. unfold indexes_in_range. cbn.
    repeat split; try lia.
    apply Forall_forall. intros i Hi. apply iota_in in Hi. right. lia.
  - eexists. split; [reflexivity|].
    pose proof (stored_indexes_range line lp bopts) as R. cbn zeta in R.
    rewrite C in R.
    destruct (maxval_range _ _ P R) as [M F].
    unfold indexes_in_range, set_indexes.
    cbn [idx_range out_indexes tmp_slots num_fields ifs ofs time_cols].
    repeat split; try lia; try assumption.
Qed.

End Resolver.

(** C6.  After a field-name header line is resolved against a non-empty
    request list with negate off (under a separator other than NUL, with
    which the field count is undefined), "out_indexes" holds the first-match
    index of each requested name, "idx_range" is 1 plus the largest
    resolved index (the largest being 0 when nothing resolves), every
    resolved index lies below "idx_range", that largest index is one of the
    resolved ones whenever there is one, and the "not found" entries
    contribute nothing: when no requested name resolves "idx_range" is
    1. *)
Theorem idx_range_of_request (line : string) (lp : logparams)
  (bopts : useropts) :
  is_nul (ifs lp) = false ->
  Opt.columns bopts <> [] ->
  Opt.negate bopts = 0 ->
  exists lp',
    find_output_indexes line lp bopts = Some lp'
    /\ out_indexes lp'
       = map (string_index (all_fields (ifs lp) line)) (Opt.columns bopts)
    /\ idx_range lp' = 1 + max_index (resolved (out_indexes lp'))
    /\ (forall i, In i (out_indexes lp') -> i <> -1 ->
          0 <= i < idx_range lp')
    /\ (resolved (out_indexes lp') <> [] ->
          In (idx_range lp' - 1) (resolved (out_indexes lp')))
    /\ (resolved (out_indexes lp') = [] -> idx_range lp' = 1).
Proof.
  intros N C G.
  destruct (find_output_indexes_ok line lp bopts N)
    as (lp' & E & [_ I] & _).
  exists lp'. split; [exact E|].
  unfold find_output_indexes, all_fields in *. rewrite N in *.
  destruct (Opt.columns bopts) as [|c cs] eqn:Cs; [congruence|].
  rewrite G in E. cbn [Z.eqb] in E.
  set (oi := map (string_index (tokens (ifs lp) line)) (c :: cs)) in *.
  clearbody oi. injection E as <-.
  unfold set_indexes in *. cbn [out_indexes idx_range] in *.
  rewrite maxval_of_resolved in *. rewrite Forall_forall in I.
  split; [reflexivity|]. split; [lia|]. split; [|split].
  - intros i Hi Ne. destruct (I i Hi); [contradiction|assumption].
  - intros Hr. replace (max_index (resolved oi) + 1 - 1)
      with (max_index (resolved oi)) by lia.
    apply max_index_attained; [exact Hr|].
    intros i Hi. apply resolved_in in Hi. destruct Hi as [Hi Ne].
    destruct (I i Hi); [contradiction|lia].
  - intros ->. reflexivity.
Qed.

Lemma idx_range_of_request_witness :
  exists lp',
    find_output_indexes (tsv ["a"; "b"; "c"]) init_lp
      (default_opts ["c"; "zz"; "a"]) = Some lp'
    /\ out_indexes lp' = [2; -1; 0] /\ idx_range lp' = 3.
Proof.
  destruct (idx_range_of_request (tsv ["a"; "b"; "c"]) init_lp
              (default_opts ["c"; "zz"; "a"]))
    as (lp' & E & O & R & _); [reflexivity|discriminate|reflexivity|].
  exists lp'. split; [exact E|]. split; [exact O|].
  rewrite R, O. reflexivity.
Defined.

Section NegatedResolver.

Context {clock : TimeText}.

Lemma resolved_all (l : list Z) :
  (forall i, In i l -> i <> -1) -> resolved l = l.
Proof.
  induction l as [|v l IH]; intros H; [reflexivity|].
  unfold resolved in *. cbn [filter].
  destruct (Z.eqb_spec v (-1)) as [E|E].
  - exfalso. apply (H v); [left; reflexivity|exact E].
  - cbn [negb]. f_equal. apply IH. intros i Hi. apply H. right. exact Hi.
Qed.

Lemma kept_positions_none declared :
  kept_positions [] declared = iota (List.length declared).
Proof.
  unfold kept_positions, iota. f_equal.
  apply forallb_filter_id. apply forallb_forall. intros j _. reflexivity.
Qed.

Lemma max_index_iota n : max_index (iota (S n)) = Z.of_nat n.
Proof.
  apply Z.le_antisymm.
  - apply max_index_le; [lia|]. intros i Hi. apply iota_in in Hi. lia.
  - apply max_index_bound, iota_in. lia.
Qed.

Lemma negated_indexes line lp bopts lp' :
  is_nul (ifs lp) = false -> Opt.negate bopts <> 0 ->
  find_output_indexes line lp bopts = Some lp' ->
  out_indexes lp'
  = kept_positions (Opt.columns bopts) (all_fields (ifs lp) line)
  /\ idx_range lp' = 1 + max_index (out_indexes lp').
Proof.
  intros N G. unfold find_output_indexes, all_fields. rewrite N.
  destruct (count_char_tokens (ifs lp) line) as [E P].
  destruct (Opt.columns bopts) as [|c cs] eqn:C.
  - intros [= <-]. unfold set_indexes. cbn [out_indexes idx_range].
    rewrite kept_positions_none, E, Nat2Z.id. split; [reflexivity|].
    destruct (List.length (tokens (ifs lp) line)) as [|m] eqn:L; [lia|].
    rewrite max_index_iota. lia.
  - destruct (Z.eqb_spec (Opt.negate bopts) 0) as [|_]; [contradiction|].
    intros [= <-]. unfold set_indexes. cbn [out_indexes idx_range].
    rewrite negated_positions. split; [reflexivity|].
    rewrite maxval_of_resolved, resolved_all; [lia|].
    intros i Hi. apply kept_positions_in in Hi. lia.
Qed.

End NegatedResolver.

(** C2.  With negate on and the exclusion set [E], for every declared
    field-name list (cut at a separator other than NUL, with which the
    field count is undefined) the output index list is the list of the declared
    positions whose name is not in [E], in declared order: it is strictly
    increasing, holds exactly those positions, and selects from the
    declared names the list of them with the members of [E] removed;
    "idx_range" is 1 plus the largest kept index (the largest being 0 when
    nothing is kept); and a data line with at least "idx_range" fields is
    written as the cells of the kept positions, in that order. *)
Theorem negated_projection {clock : TimeText} (line : string)
  (lp : logparams) (bopts : useropts) :
  is_nul (ifs lp) = false ->
  Opt.negate bopts <> 0 ->
  let declared := all_fields (ifs lp) line in
  let E := Opt.columns bopts in
  exists lp',
    find_output_indexes line lp bopts = Some lp'
    /\ out_indexes lp' = kept_positions E declared
    /\ StronglySorted Z.lt (out_indexes lp')
    /\ (forall i, In i (out_indexes lp') <->
          0 <= i < Z.of_nat (List.length declared)
          /\ ~ In (field_of declared i) E)
    /\ map (field_of declared) (out_indexes lp') = without E declared
    /\ idx_range lp' = 1 + max_index (out_indexes lp')
    /\ (forall lp2 data,
          same_columns lp' lp2 -> time_cols_ready bopts lp2 ->
          let fs := all_fields (ifs lp2) data in
          idx_range lp' <= Z.of_nat (List.length fs) ->
          output_indexes false data lp2 bopts
          = Some ([join (buf2 (ofs lp2))
                     (map (data_cell bopts lp2 fs)
                        (kept_positions E declared))],
                  flat_map (data_diags bopts lp2 fs)
                    (kept_positions E declared))).
Proof.
  intros N G declared E.
  destruct (find_output_indexes_ok line lp bopts N)
    as (lp' & F & I & R & S & _).
  destruct (negated_indexes line lp bopts lp' N G F) as [O M].
  fold declared E in O.
  exists lp'. split; [exact F|]. split; [exact O|]. rewrite O.
  split; [apply kept_positions_sorted|].
  split; [apply kept_positions_in|].
  split; [apply kept_positions_fields|].
  split; [rewrite <- O; exact M|].
  intros lp2 data (So & Sr & St & Sn) T fs L.
  assert (I2 : indexes_in_range lp2).
  { unfold indexes_in_range in *. rewrite So, Sr. exact I. }
  pose proof (output_indexes_data data lp2 bopts I2 ltac:(lia) T) as D.
  cbn zeta in D. fold fs in D. rewrite D, So, O.
  destruct (Z.ltb_spec (Z.of_nat (List.length fs)) (idx_range lp2));
    [lia|reflexivity].
Qed.

(* ================================================================= *)
(** ** The driver *)

Section Driver.

Context {clock : TimeText}.

Lemma starts_with_app p : forall s,
  starts_with p s = true -> exists r, s = (p ++ r)%string.
Proof.
  induction p as [|a p IH]; intros s H; [exists s; reflexivity|].
  destruct s as [|b s]; [discriminate|]. cbn in H.
  apply andb_true_iff in H. destruct H as [E H].
  apply Ascii.eqb_eq in E. subst b.
  destruct (IH s H) as [r ->]. exists r. reflexivity.
Qed.

(** The prefixes the driver dispatches on exclude one another, and each
    makes the line a header line. *)
Lemma fields_line_kind l :
  starts_with "#fields" l = true ->
  is_header l = true /\ starts_with "#separator " l = false
  /\ starts_with "#types" l = false.
Proof.
  intros H. apply starts_with_app in H. destruct H as [r ->].
  repeat split.
Qed.

Lemma types_line_kind l :
  starts_with "#types" l = true ->
  is_header l = true /\ starts_with "#separator " l = false
  /\ starts_with "#fields" l = false.
Proof.
  intros H. apply starts_with_app in H. destruct H as [r ->].
  repeat split.
Qed.

Lemma separator_line_kind l :
  starts_with "#separator " l = true ->
  is_header l = true /\ starts_with "#fields" l = false
  /\ starts_with "#types" l = false
  /\ exists sepstr, offset 11 l = until_nul sepstr
                    /\ l = ("#separator " ++ sepstr)%string.
Proof.
  intros H. apply starts_with_app in H. destruct H as [r ->].
  repeat split. exists r. split; reflexivity.
Qed.

Lemma data_line_kind l :
  is_header l = false ->
  starts_with "#separator " l = false /\ starts_with "#fields" l = false
  /\ starts_with "#types" l = false.
Proof.
  intros H. destruct l as [|c r]; [repeat split|].
  unfold is_header in H. cbn [char0] in H.
  cbn [starts_with]. rewrite Ascii.eqb_sym, H. repeat split.
Qed.

Lemma steps_app bopts xs : forall st ys,
  steps bopts st (xs ++ ys) =
  match steps bopts st xs with
  | Continue st' => steps bopts st' ys
  | r => r
  end.
Proof.
  induction xs as [|x xs IH]; intros st ys; [reflexivity|].
  cbn [app steps]. destruct (step bopts st x); [apply IH|reflexivity..].
Qed.

Lemma steps_snoc bopts pre l st' :
  steps bopts init_state (pre ++ [l]) = Continue st' ->
  exists st, steps bopts init_state pre = Continue st
             /\ step bopts st l = Continue st'.
Proof.
  rewrite steps_app. destruct (steps bopts init_state pre) as [st| |];
    try discriminate.
  cbn [steps]. intros H. exists st. split; [reflexivity|].
  destruct (step bopts st l); congruence.
Qed.

Lemma find_output_indexes_some line l bopts l' :
  find_output_indexes line l bopts = Some l' -> is_nul (ifs l) = false.
Proof.
  unfold find_output_indexes. destruct (is_nul (ifs l)); congruence.
Qed.

Lemma find_timecol_inl line l l' :
  find_timecol line l = inl l' ->
  0 <= idx_range l ->
  same_columns l l' /\ ifs l' = ifs l /\ ofs l' = ofs l
  /\ Z.of_nat (List.length (time_cols l')) = idx_range l.
Proof.
  unfold find_timecol. rewrite take_fields_line.
  destruct (Nat.leb_spec (Z.to_nat (idx_range l))
              (List.length (all_fields (ifs l) line))); [|discriminate].
  intros [= <-] R. unfold same_columns, set_time_cols.
  cbn [out_indexes idx_range tmp_slots num_fields ifs ofs time_cols].
  rewrite length_map, length_firstn. repeat split. lia.
Qed.

(** The header branches keep the parameters well formed. *)
Lemma process_header_ok bopts st line l pfl :
  state_ok bopts st ->
  process_header bopts st line = HOk l pfl ->
  params_ok bopts l pfl.
Proof.
  intros (I & S1 & S2 & T). unfold process_header.
  destruct (starts_with "#separator " line).
  { intros [= <- <-].
    exact (conj I (conj S1 (conj S2 T))). }
  destruct (starts_with "#fields" line).
  { set (names := offset 8 line) in *.
    destruct (find_output_indexes names (lp st) bopts) as [l'|] eqn:F;
      [|discriminate].
    intros [= <- <-].
    destruct (find_output_indexes_ok names (lp st) bopts
                (find_output_indexes_some _ _ _ _ F))
      as (l2 & F2 & I2 & R2 & S & _).
    rewrite F in F2. injection F2 as <-.
    repeat split; try apply I2; try lia; try discriminate. }
  destruct (starts_with "#types" line);
    [|intros [= <- <-]; exact (conj I (conj S1 (conj S2 T)))].
  destruct (prev_fields_line st) eqn:P; [|discriminate]. cbn [negb].
  destruct (Z.eqb_spec (Opt.timeconv bopts) 0) as [Z0|Z0].
  { intros [= <- <-]. repeat split; try apply I; try assumption;
      try discriminate. intros _ C. contradiction. }
  set (types := offset 7 line) in *.
  destruct (find_timecol types (lp st)) as [l'|] eqn:F; [|discriminate].
  intros [= <- <-]. destruct I as [R I].
  destruct (find_timecol_inl _ _ _ F R) as ((So & Sr & St & Sn) & _ & _ & L).
  unfold params_ok, indexes_in_range, time_cols_ready.
  rewrite So, Sr, St. specialize (S2 eq_refl).
  repeat split; try assumption; try lia; try discriminate.
Qed.

Lemma step_state_ok bopts st line st' :
  state_ok bopts st -> step bopts st line = Continue st' ->
  state_ok bopts st'.
Proof.
  intros K. unfold step.
  destruct (prev_fields_line st && negb (starts_with "#types" line))%bool;
    [discriminate|].
  destruct (is_header line); cbn [negb].
  - destruct (process_header bopts st line) as [l pfl| |] eqn:P;
      try discriminate.
    pose proof (process_header_ok _ _ _ _ _ K P) as K'.
    destruct (_ <=? Opt.showhdr bopts);
      [destruct (_ || _)%bool;
       [destruct (output_indexes true (until_nul line) l bopts) as [[o e]|];
        [|discriminate]|]|];
      intros [= <-]; exact K'.
  - destruct (output_indexes false (until_nul line) (lp st) bopts) as [[o e]|];
      [|discriminate].
    intros [= <-]. exact K.
Qed.

Lemma header_blocks_snoc pre l : forall prev,
  header_blocks_from prev (pre ++ [l]) =
  header_blocks_from prev pre
  + (if (is_header l
         && negb (match rev pre with
                  | [] => prev
                  | x :: _ => is_header x
                  end))%bool
     then 1 else 0).
Proof.
  induction pre as [|x pre IH]; intros prev.
  - cbn. lia.
  - cbn [app header_blocks_from rev]. rewrite IH.
    destruct (rev pre) as [|y r] eqn:R; cbn [app]; lia.
Qed.

Lemma last_line_is_snoc p pre l : last_line_is p (pre ++ [l]) = p l.
Proof. unfold last_line_is. rewrite rev_app_distr. reflexivity. Qed.

Lemma step_tracks bopts pre st line st' :
  tracks pre st -> step bopts st line = Continue st' ->
  tracks (pre ++ [line]) st'.
Proof.
  intros (Hs & Hh & Hf). unfold tracks, header_blocks.
  rewrite !last_line_is_snoc, header_blocks_snoc.
  fold (last_line_is is_header pre). rewrite <- Hh.
  fold (header_blocks pre). unfold step.
  destruct (prev_fields_line st) eqn:P; cbn [andb].
  - destruct (starts_with "#types" line) eqn:Ty; cbn [negb];
      [|discriminate].
    destruct (types_line_kind _ Ty) as (H & Se & Fi). rewrite H. cbn [negb].
    unfold process_header. rewrite Se, Fi, Ty, P. cbn [negb].
    set (hs := if prev_line_hdr st then _ else _).
    assert (Ehs : hs = Z.min 2 (header_blocks pre
                     + if (true && negb (prev_line_hdr st))%bool
                       then 1 else 0)).
    { subst hs. destruct (prev_line_hdr st); cbn [negb andb];
        [lia|destruct (Z.ltb_spec (headers_seen st) 2); lia]. }
    destruct (Opt.timeconv bopts =? 0);
      [|destruct (find_timecol _ _); [|discriminate]];
      (destruct (hs <=? Opt.showhdr bopts);
       [rewrite orb_true_r;
        destruct (output_indexes true (until_nul line) _ bopts)
          as [[o e]|];
        [|discriminate]|]);
      intros [= <-]; cbn; auto.
  - destruct (is_header line) eqn:H; cbn [negb].
    + set (hs := if prev_line_hdr st then _ else _).
      assert (Ehs : hs = Z.min 2 (header_blocks pre
                       + if (true && negb (prev_line_hdr st))%bool
                         then 1 else 0)).
      { subst hs. destruct (prev_line_hdr st); cbn [negb andb];
          [lia|destruct (Z.ltb_spec (headers_seen st) 2); lia]. }
      destruct (process_header bopts st line) as [l pfl| |] eqn:Ph;
        try discriminate.
      assert (Epfl : pfl = starts_with "#fields" line).
      { revert Ph. unfold process_header.
        destruct (starts_with "#separator " line) eqn:Se.
        { destruct (separator_line_kind _ Se) as (_ & Fi & _).
          rewrite Fi.
          intros [= _ <-]. exact P. }
        destruct (starts_with "#fields" line).
        { destruct (find_output_indexes _ _ _); [|discriminate].
          intros [= _ <-]. reflexivity. }
        destruct (starts_with "#types" line); [rewrite P; discriminate|].
        intros [= _ <-]. exact P. }
      destruct (hs <=? Opt.showhdr bopts);
        [destruct (_ || _)%bool;
         [destruct (output_indexes true (until_nul line) l bopts)
            as [[o e]|];
          [|discriminate]|]|];
        intros [= <-]; cbn; auto.
    + destruct (data_line_kind _ H) as (_ & Fi & _). rewrite Fi.
      destruct (output_indexes false (until_nul line) (lp st) bopts)
        as [[o e]|]; [|discriminate].
      intros [= <-]. cbn. rewrite Z.add_0_r. auto.
Qed.

Lemma init_state_ok bopts : state_ok bopts init_state /\ tracks [] init_state.
Proof.
  unfold state_ok, params_ok, indexes_in_range, time_cols_ready, tracks.
  cbn. repeat split; try lia; try constructor.
Qed.

(** Every state that the loop reaches is well formed and keeps the
    bookkeeping of the lines read so far. *)
Lemma reached_ok bopts pre : forall st,
  steps bopts init_state pre = Continue st ->
  state_ok bopts st /\ tracks pre st.
Proof.
  induction pre as [|l pre IH] using rev_ind; intros st H.
  - injection H as <-. apply init_state_ok.
  - apply steps_snoc in H. destruct H as (st0 & H0 & H1).
    destruct (IH st0 H0) as [K T]. split.
    + exact (step_state_ok _ _ _ _ K H1).
    + exact (step_tracks _ _ _ _ _ T H1).
Qed.

End Driver.

Section Ordering.

Context {clock : TimeText}.

Lemma last_fields_is_last_header pre :
  last_line_is (starts_with "#fields") pre = true ->
  exists h, last_header pre = Some h /\ starts_with "#fields" h = true.
Proof.
  unfold last_line_is, last_header. destruct (rev pre) as [|l r];
    [discriminate|].
  intros H. exists l. destruct (fields_line_kind _ H) as (Hh & _).
  cbn [find]. rewrite Hh. split; [reflexivity|exact H].
Qed.

Lemma step_types_without_fields bopts st line :
  prev_fields_line st = false -> starts_with "#types" line = true ->
  exists st', step bopts st line = Fatal st'
              /\ stdout st' = stdout st
              /\ stderr st' = stderr st ++ [missing_fields_diag].
Proof.
  intros P Ty. destruct (types_line_kind _ Ty) as (H & Se & Fi).
  unfold step, process_header. rewrite P, H, Se, Fi, Ty. cbn [andb negb].
  eexists. split; [reflexivity|]. cbn. rewrite app_nil_r. auto.
Qed.

Lemma step_fields_without_types bopts st line :
  prev_fields_line st = true -> starts_with "#types" line = false ->
  exists st', step bopts st line = Fatal st'
              /\ stdout st' = stdout st
              /\ stderr st' = stderr st ++ [missing_types_diag].
Proof.
  intros P Ty. unfold step. rewrite P, Ty. cbn [andb negb].
  eexists. split; [reflexivity|]. cbn. rewrite app_nil_r. auto.
Qed.

Lemma fatal_ends_run bopts pre line rest st st' :
  steps bopts init_state pre = Continue st ->
  step bopts st line = Fatal st' ->
  bro_cut_lines bopts (pre ++ line :: rest)
  = Exit 1 (stdout st') (stderr st').
Proof.
  intros H F. unfold bro_cut_lines. rewrite steps_app, H.
  cbn [steps]. rewrite F. reflexivity.
Qed.

End Ordering.

(** C7.  For every input, a #types header line that is reached while the
    header line before it was not a #fields line aborts the run: the
    diagnostic is written, the output is what it was before that line
    whatever follows it, and the driver returns 1. *)
Theorem types_without_fields_is_fatal {clock : TimeText} (bopts : useropts)
  (pre : list string) (line : string) (rest : list string) (st : state) :
  steps bopts init_state pre = Continue st ->
  starts_with "#types" line = true ->
  (forall h, last_header pre = Some h -> starts_with "#fields" h = false) ->
  bro_cut_lines bopts (pre ++ line :: rest)
  = Exit 1 (stdout st) (stderr st ++ [missing_fields_diag]).
Proof.
  intros H Ty L. destruct (reached_ok _ _ _ H) as [_ (_ & _ & Pf)].
  assert (P : prev_fields_line st = false).
  { rewrite Pf. destruct (last_line_is _ pre) eqn:E; [|reflexivity].
    destruct (last_fields_is_last_header _ E) as (h & Lh & Fh).
    rewrite (L h Lh) in Fh. discriminate. }
  destruct (step_types_without_fields bopts st line P Ty)
    as (st' & F & O & D).
  rewrite (fatal_ends_run _ _ _ rest _ _ H F), O, D. reflexivity.
Qed.

(** C10.  For every input, when the line that follows a #fields header
    line does not begin with "#types", whatever kind of line it is, the run
    aborts there: the diagnostic is written, nothing further is read, and
    the driver returns 1. *)
Theorem fields_without_types_is_fatal {clock : TimeText} (bopts : useropts)
  (pre : list string) (fline line : string) (rest : list string)
  (st : state) :
  steps bopts init_state (pre ++ [fline]) = Continue st ->
  starts_with "#fields" fline = true ->
  starts_with "#types" line = false ->
  bro_cut_lines bopts (pre ++ fline :: line :: rest)
  = Exit 1 (stdout st) (stderr st ++ [missing_types_diag]).
Proof.
  intros H Fi Ty. destruct (reached_ok _ _ _ H) as [_ (_ & _ & Pf)].
  rewrite last_line_is_snoc, Fi in Pf.
  destruct (step_fields_without_types bopts st line Pf Ty)
    as (st' & F & O & D).
  replace (pre ++ fline :: line :: rest)
    with ((pre ++ [fline]) ++ line :: rest)
    by (rewrite <- app_assoc; reflexivity).
  rewrite (fatal_ends_run _ _ _ rest _ _ H F), O, D. reflexivity.
Qed.

(** C8 (as amended).  For every data line that does not directly follow a
    #fields line and has fewer fields, under the current input separator,
    than "idx_range": the line is skipped, the diagnostic is written, no
    output line is produced, nothing else of the state changes but the
    note that the last line was not a header, the loop goes on with the
    next line, and a run that ends there returns 0. *)
Theorem short_data_line_skipped {clock : TimeText} (bopts : useropts)
  (pre : list string) (line : string) (st : state) :
  steps bopts init_state pre = Continue st ->
  is_header line = false ->
  last_line_is (starts_with "#fields") pre = false ->
  Z.of_nat (List.length (all_fields (ifs (lp st)) (until_nul line)))
    < idx_range (lp st) ->
  exists st',
    step bopts st line = Continue st'
    /\ stdout st' = stdout st
    /\ stderr st' = stderr st ++ [skip_diag]
    /\ lp st' = lp st /\ headers_seen st' = headers_seen st
    /\ prev_fields_line st' = prev_fields_line st
    /\ prev_line_hdr st' = false
    /\ (forall rest,
          steps bopts init_state (pre ++ line :: rest)
          = steps bopts st' rest)
    /\ bro_cut_lines bopts (pre ++ [line])
       = Exit 0 (stdout st) (stderr st ++ [skip_diag]).
Proof.
  intros H Hd Lf Sh.
  destruct (reached_ok _ _ _ H) as [(I & S1 & _ & T) (_ & _ & Pf)].
  rewrite Lf in Pf. specialize (T Pf).
  pose proof (output_indexes_data (until_nul line) (lp st) bopts I S1 T)
    as D.
  cbn zeta in D. apply Z.ltb_lt in Sh. rewrite Sh in D.
  assert (E : step bopts st line
              = Continue (emit st (lp st) (headers_seen st) false
                            (prev_fields_line st) [] [skip_diag])).
  { unfold step. rewrite Pf, Hd, D. reflexivity. }
  eexists. split; [exact E|]. cbn. rewrite app_nil_r.
  repeat split.
  - intros rest. rewrite steps_app, H. cbn [steps]. rewrite E. reflexivity.
  - unfold bro_cut_lines. rewrite steps_app, H. cbn [steps]. rewrite E.
    cbn. rewrite app_nil_r. reflexivity.
Qed.

Lemma types_without_fields_is_fatal_witness :
  bro_cut_lines (clock := no_clock) (default_opts [])
    (["#fields"; "#types"; "x"] ++ "#types" :: ["y"])
  = Exit 1 ["x"] [missing_fields_diag].
Proof.
  refine (types_without_fields_is_fatal (clock := no_clock)
            (default_opts []) ["#fields"; "#types"; "x"] "#types"
            ["y"] _ eq_refl eq_refl _).
  intros h [= <-]. reflexivity.
Defined.

Lemma fields_without_types_is_fatal_witness :
  bro_cut_lines (clock := no_clock) (default_opts [])
    (["#separator \x09"] ++ "#fields" :: tsv ["1"; "2"] :: ["#types"])
  = Exit 1 [] [missing_types_diag].
Proof.
  exact (fields_without_types_is_fatal (clock := no_clock)
           (default_opts []) ["#separator \x09"] "#fields"
           (tsv ["1"; "2"]) ["#types"] _ eq_refl eq_refl eq_refl).
Defined.

Lemma short_data_line_skipped_witness :
  bro_cut_lines (clock := no_clock) (default_opts ["b"])
    ([tsv ["#fields"; "a"; "b"]; "#types"] ++ ["x"])
  = Exit 0 [] [skip_diag].
Proof.
  destruct (short_data_line_skipped (clock := no_clock) (default_opts ["b"])
              [tsv ["#fields"; "a"; "b"]; "#types"] "x"
              _ eq_refl eq_refl eq_refl eq_refl)
    as (st' & _ & _ & _ & _ & _ & _ & _ & _ & R).
  exact R.
Defined.

(** C8, the claim as stated fails: a data line with fewer fields than
    "idx_range" that directly follows the #fields line is not skipped: the
    run aborts at it with status 1, and the line after it is never
    read. *)
Lemma short_line_after_fields_counterexample :
  let bopts := default_opts ["b"] in
  let pre := [tsv ["#fields"; "a"; "b"]] in
  exists st,
    steps (clock := no_clock) bopts init_state pre = Continue st
    /\ is_header "x" = false
    /\ Z.of_nat (List.length (all_fields (ifs (lp st)) "x"))
       < idx_range (lp st)
    /\ (exists st', step (clock := no_clock) bopts st "x" = Fatal st')
    /\ bro_cut_lines (clock := no_clock) bopts
         (pre ++ ["x"; tsv ["y"; "z"]])
       = Exit 1 [] [missing_types_diag]
    /\ bro_cut_lines (clock := no_clock) bopts
         (pre ++ [tsv ["#types"; "s"; "t"]; tsv ["y"; "z"]])
       = Exit 0 ["z"] [].
Proof.
  intros bopts pre. eexists. split; [reflexivity|].
  split; [reflexivity|]. split; [reflexivity|].
  split; [eexists; reflexivity|]. split; reflexivity.
Qed.

Section Display.

Context {clock : TimeText}.

(** A #fields or #types line that the driver hands to the projector finds
    room for its fields in the scratch array. *)
Lemma process_header_room bopts st line l pfl :
  state_ok bopts st ->
  process_header bopts st line = HOk l pfl ->
  (starts_with "#fields" line || starts_with "#types" line)%bool = true ->
  idx_range l + 1 <= tmp_slots l.
Proof.
  intros K Ph. pose proof (process_header_ok _ _ _ _ _ K Ph) as (_&_& R &_).
  destruct K as ([R0 _] & _ & S2 & _). revert Ph. unfold process_header.
  destruct (starts_with "#separator " line) eqn:Se.
  { destruct (separator_line_kind _ Se) as (_ & -> & -> & _). discriminate. }
  destruct (starts_with "#fields" line).
  { destruct (find_output_indexes _ _ _); [|discriminate].
    intros [= <- <-] _. apply R. reflexivity. }
  destruct (starts_with "#types" line); [|discriminate].
  destruct (prev_fields_line st); [|discriminate]. cbn [negb].
  specialize (S2 eq_refl).
  destruct (Opt.timeconv bopts =? 0); [intros [= <- <-] _; exact S2|].
  destruct (find_timecol _ _) as [l'|] eqn:F; [|discriminate].
  intros [= <- <-] _.
  destruct (find_timecol_inl _ _ _ F R0) as ((_ & Sr & St & _) & _).
  lia.
Qed.

(** What a header line that the loop gets past adds to stdout and to
    stderr. *)
Lemma step_header_output bopts st line st' :
  state_ok bopts st -> is_header line = true ->
  step bopts st line = Continue st' ->
  let fs := all_fields (ifs (lp st')) (until_nul line) in
  let projected :=
    (starts_with "#fields" line || starts_with "#types" line)%bool in
  let short := Z.of_nat (List.length fs) <? idx_range (lp st') + 1 in
  stdout st' = stdout st ++
    (if Opt.showhdr bopts <? headers_seen st' then []
     else if projected
          then if short then []
               else [join (buf2 (ofs (lp st')))
                       (hd EmptyString fs
                        :: map (header_cell bopts (hd EmptyString fs) (tl fs))
                             (out_indexes (lp st')))]
          else [until_nul line])
  /\ stderr st' = stderr st ++
       (if Opt.showhdr bopts <? headers_seen st' then []
        else if (projected && short)%bool then [skip_diag] else []).
Proof.
  intros K H. unfold step.
  destruct (prev_fields_line st && negb (starts_with "#types" line))%bool;
    [discriminate|].
  rewrite H. cbn [negb].
  set (hs := if prev_line_hdr st then _ else _).
  destruct (process_header bopts st line) as [l pfl| |] eqn:Ph;
    try discriminate.
  pose proof (process_header_ok _ _ _ _ _ K Ph) as (I & _).
  pose proof (process_header_room _ _ _ _ _ K Ph) as R.
  rewrite Z.leb_antisym.
  destruct (Opt.showhdr bopts <? hs) eqn:Sh; cbn [negb].
  - intros [= <-]. cbn. rewrite Sh. split; reflexivity.
  - destruct (starts_with "#fields" line || starts_with "#types" line)%bool.
    + pose proof (output_indexes_header (until_nul line) l bopts I
                    (R eq_refl)) as O.
      cbn zeta in O. rewrite O.
      destruct (Z.of_nat _ <? idx_range l + 1) eqn:L;
        intros [= <-]; cbn; rewrite Sh, L; split; reflexivity.
    + intros [= <-]. cbn. rewrite Sh. split; reflexivity.
Qed.

Lemma step_counts_blocks bopts st line st' :
  step bopts st line = Continue st' ->
  headers_seen st' =
  if (is_header line && negb (prev_line_hdr st))%bool
  then (if headers_seen st <? 2 then headers_seen st + 1
        else headers_seen st)
  else headers_seen st.
Proof.
  unfold step.
  destruct (prev_fields_line st && negb (starts_with "#types" line))%bool;
    [discriminate|].
  destruct (is_header line); cbn [negb andb].
  - destruct (process_header bopts st line) as [l pfl| |];
      try discriminate.
    destruct (_ <=? Opt.showhdr bopts);
      [destruct (_ || _)%bool;
       [destruct (output_indexes true (until_nul line) l bopts) as [[o e]|];
        [|discriminate]|]|];
      intros [= <-]; cbn; destruct (prev_line_hdr st); reflexivity.
  - destruct (output_indexes false (until_nul line) (lp st) bopts) as [[o e]|];
      [|discriminate].
    intros [= <-]. reflexivity.
Qed.

Lemma header_blocks_from_nonneg ls : forall prev,
  0 <= header_blocks_from prev ls.
Proof.
  induction ls as [|l ls IH]; intros prev; cbn [header_blocks_from]; [lia|].
  specialize (IH (is_header l)). destruct (_ && _)%bool; lia.
Qed.

Lemma header_blocks_from_header ls l : forall prev,
  In l ls -> is_header l = true ->
  1 <= header_blocks_from prev ls + (if prev then 1 else 0).
Proof.
  induction ls as [|x r IH]; intros prev I H; [contradiction|].
  cbn [header_blocks_from].
  pose proof (header_blocks_from_nonneg r (is_header x)).
  destruct I as [->|I].
  - rewrite H in *. destruct prev; cbn [andb negb]; lia.
  - specialize (IH (is_header x) I H).
    destruct (is_header x), prev; cbn [andb negb]; lia.
Qed.

Lemma header_blocks_snoc_header pre line :
  is_header line = true -> 1 <= header_blocks (pre ++ [line]).
Proof.
  intros H. unfold header_blocks.
  pose proof (header_blocks_from_header (pre ++ [line]) line false) as B.
  rewrite Z.add_0_r in B. apply B; [|exact H].
  apply in_or_app. right. left. reflexivity.
Qed.

End Display.

(** C3 (as amended).  For every input and every header-display mode:
    "headers_seen" goes up, saturating at 2, only at a header line that
    follows a line that is not one, so that after each line it is the
    number of header blocks begun so far, capped at 2; a header line that
    the loop gets past is handed to the output exactly when "headers_seen"
    is at most "showhdr", so never with 0, only in the first block with 1,
    in every block with 2; a #fields or #types line goes through the
    projector, which writes its tag and its selected columns when the line
    has at least "idx_range" + 1 fields, and otherwise writes the
    diagnostic of a skipped line and no line; any other header line is
    echoed unchanged, and a header line that is not handed to the output
    writes nothing at all. *)
Theorem header_display_policy {clock : TimeText} (bopts : useropts)
  (pre : list string) (line : string) (st st' : state) :
  steps bopts init_state pre = Continue st ->
  step bopts st line = Continue st' ->
  headers_seen st' = Z.min 2 (header_blocks (pre ++ [line]))
  /\ headers_seen st' =
     (if (is_header line && negb (prev_line_hdr st))%bool
      then Z.min 2 (headers_seen st + 1) else headers_seen st)
  /\ (is_header line = true ->
      let fs := all_fields (ifs (lp st')) (until_nul line) in
      let projected :=
        (starts_with "#fields" line || starts_with "#types" line)%bool in
      let short := Z.of_nat (List.length fs) <? idx_range (lp st') + 1 in
      let shown :=
        if projected
        then if short then []
             else [join (buf2 (ofs (lp st')))
                     (hd EmptyString fs
                      :: map (header_cell bopts (hd EmptyString fs) (tl fs))
                           (out_indexes (lp st')))]
        else [until_nul line] in
      let diag := if (projected && short)%bool then [skip_diag] else [] in
      let handed := stdout st' = stdout st ++ shown
                    /\ stderr st' = stderr st ++ diag in
      let silent := stdout st' = stdout st /\ stderr st' = stderr st in
      1 <= header_blocks (pre ++ [line])
      /\ (headers_seen st' <= Opt.showhdr bopts -> handed)
      /\ (Opt.showhdr bopts < headers_seen st' -> silent)
      /\ (Opt.showhdr bopts <= 0 -> silent)
      /\ (Opt.showhdr bopts = 1 ->
          (header_blocks (pre ++ [line]) = 1 -> handed)
          /\ (2 <= header_blocks (pre ++ [line]) -> silent))
      /\ (2 <= Opt.showhdr bopts -> handed)).
Proof.
  intros H S. destruct (reached_ok _ _ _ H) as [K T].
  pose proof (step_tracks _ _ _ _ _ T S) as (Hs & _).
  pose proof (step_counts_blocks _ _ _ _ S) as C.
  destruct T as (Hs0 & _).
  split; [exact Hs|]. split.
  { rewrite C. destruct (_ && _)%bool; [|reflexivity].
    pose proof (header_blocks_from_nonneg pre false).
    unfold header_blocks in Hs0.
    destruct (Z.ltb_spec (headers_seen st) 2); lia. }
  intros Hd fs projected short shown diag handed silent.
  pose proof (header_blocks_snoc_header pre line Hd) as B.
  pose proof (step_header_output _ _ _ _ K Hd S) as [O E]. cbn zeta in O, E.
  fold fs in O, E. fold projected in O, E. fold short in O, E.
  fold shown in O. fold diag in E.
  assert (Y : headers_seen st' <= Opt.showhdr bopts -> handed).
  { intros L. unfold handed. rewrite O, E.
    destruct (Z.ltb_spec (Opt.showhdr bopts) (headers_seen st'));
      [lia|split; reflexivity]. }
  assert (N : Opt.showhdr bopts < headers_seen st' -> silent).
  { intros L. unfold silent. rewrite O, E.
    destruct (Z.ltb_spec (Opt.showhdr bopts) (headers_seen st'));
      [split; apply app_nil_r|lia]. }
  split; [exact B|]. split; [exact Y|]. split; [exact N|].
  split; [intros L; apply N; lia|].
  split; [intros L; split; intros L'; [apply Y|apply N]; lia|].
  intros L. apply Y. lia.
Qed.

Lemma header_display_policy_witness :
  let bopts := {| Opt.showhdr := 1; Opt.negate := 0; Opt.timeconv := 0;
                  Opt.columns := ["b"]; Opt.ofs := "";
                  Opt.timefmt := "" |} in
  exists st st',
    steps (clock := no_clock) bopts init_state ["#separator \x09"]
    = Continue st
    /\ step (clock := no_clock) bopts st (tsv ["#fields"; "a"; "b"])
       = Continue st'
    /\ headers_seen st' = 1
    /\ stdout st' = ["#separator \x09"; tsv ["#fields"; "b"]].
Proof.
  intros bopts. eexists. eexists.
  split; [reflexivity|]. split; [reflexivity|].
  destruct (header_display_policy (clock := no_clock) bopts
              ["#separator \x09"] (tsv ["#fields"; "a"; "b"]) _ _
              eq_refl eq_refl)
    as (Hs & _ & D).
  split; [exact Hs|].
  destruct (D eq_refl) as (_ & Y & _).
  exact (proj1 (Y ltac:(vm_compute; discriminate))).
Defined.

(** C3, the claim as stated fails.  With the display settings that [main]
    starts from no header line is written at all, so the lines of the first
    of two header blocks are not; and a #types line at which "headers_seen"
    is within the threshold is not written when it has fewer fields than
    the selected columns need. *)
Lemma header_display_counterexample :
  let two_blocks :=
    ["#separator \x09"; tsv ["#fields"; "a"; "b"]; tsv ["#types"; "s"; "t"];
     tsv ["1"; "2"];
     "#separator \x09"; tsv ["#fields"; "a"; "b"]; tsv ["#types"; "s"; "t"];
     tsv ["3"; "4"]] in
  bro_cut_lines (clock := no_clock) (default_opts ["b"]) two_blocks
  = Exit 0 ["2"; "4"] []
  /\ (let all_blocks :=
        {| Opt.showhdr := 2; Opt.negate := 0; Opt.timeconv := 0;
           Opt.columns := ["b"]; Opt.ofs := ""; Opt.timefmt := "" |} in
      exists st st',
        steps (clock := no_clock) all_blocks init_state
          [tsv ["#fields"; "a"; "b"]] = Continue st
        /\ step (clock := no_clock) all_blocks st (tsv ["#types"; "s"])
           = Continue st'
        /\ headers_seen st' <= Opt.showhdr all_blocks
        /\ stdout st' = stdout st
        /\ stderr st' = stderr st ++ [skip_diag]).
Proof.
  intros two_blocks. split; [reflexivity|].
  intros all_blocks. eexists. eexists.
  split; [reflexivity|]. split; [reflexivity|].
  split; [vm_compute; discriminate|]. split; reflexivity.
Qed.

(** Two header blocks on a concrete log: the first-block setting shows the
    header lines of the first block only, the all-blocks setting those of
    both. *)
Example two_blocks_first_only :
  let first_block :=
    {| Opt.showhdr := 1; Opt.negate := 0; Opt.timeconv := 0;
       Opt.columns := ["b"]; Opt.ofs := ""; Opt.timefmt := "" |} in
  bro_cut (clock := no_clock) first_block
    (text ["#separator \x09"; tsv ["#fields"; "a"; "b"];
           tsv ["#types"; "s"; "t"]; tsv ["1"; "2"];
           "#separator \x09"; tsv ["#fields"; "a"; "b"];
           tsv ["#types"; "s"; "t"]; tsv ["3"; "4"]])
  = Exit 0 ["#separator \x09"; tsv ["#fields"; "b"]; tsv ["#types"; "t"];
            "2"; "4"] [].
Proof. reflexivity. Qed.

Example two_blocks_all :
  let all_blocks :=
    {| Opt.showhdr := 2; Opt.negate := 0; Opt.timeconv := 0;
       Opt.columns := ["b"]; Opt.ofs := ""; Opt.timefmt := "" |} in
  bro_cut (clock := no_clock) all_blocks
    (text ["#separator \x09"; tsv ["#fields"; "a"; "b"];
           tsv ["#types"; "s"; "t"]; tsv ["1"; "2"];
           "#separator \x09"; tsv ["#fields"; "a"; "b"];
           tsv ["#types"; "s"; "t"]; tsv ["3"; "4"]])
  = Exit 0 ["#separator \x09"; tsv ["#fields"; "b"]; tsv ["#types"; "t"];
            "2";
            "#separator \x09"; tsv ["#fields"; "b"]; tsv ["#types"; "t"];
            "4"] [].
Proof. reflexivity. Qed.

(** The bare tags on a concrete log.  The field list of the bare line
    "#fields" is the empty string, one empty field name, and the type list
    of the bare line "#types" one empty type: the run goes on, also with
    time conversion on, and the data line is written. *)
Example bare_tags_are_read :
  let converting := {| Opt.showhdr := 0; Opt.negate := 0; Opt.timeconv := 2;
                       Opt.columns := []; Opt.ofs := "";
                       Opt.timefmt := "%s" |} in
  bro_cut (clock := no_clock) (default_opts [])
    (text ["#fields"; "#types"; "5"]) = Exit 0 ["5"] []
  /\ bro_cut (clock := no_clock) converting
       (text ["#fields"; "#types"; "5"]) = Exit 0 ["5"] [].
Proof. split; reflexivity. Qed.

Section Persistence.

Context {clock : TimeText}.

Lemma same_columns_refl l : same_columns l l.
Proof. repeat split. Qed.

Lemma same_columns_trans l1 l2 l3 :
  same_columns l1 l2 -> same_columns l2 l3 -> same_columns l1 l3.
Proof.
  intros (A1 & A2 & A3 & A4) (B1 & B2 & B3 & B4). unfold same_columns.
  repeat split; congruence.
Qed.

(** Only a #fields line changes the output indexes. *)
Lemma step_keeps_columns bopts st line st' :
  state_ok bopts st ->
  step bopts st line = Continue st' ->
  starts_with "#fields" line = false ->
  same_columns (lp st) (lp st').
Proof.
  intros K S Fi.
  assert (P : forall l pfl, process_header bopts st line = HOk l pfl ->
                            same_columns (lp st) l).
  { intros l pfl. unfold process_header. rewrite Fi.
    destruct (starts_with "#separator " line).
    { intros [= <- _].
      repeat split. }
    destruct (starts_with "#types" line);
      [|intros [= <- _]; apply same_columns_refl].
    destruct (negb (prev_fields_line st)); [discriminate|].
    destruct (Opt.timeconv bopts =? 0);
      [intros [= <- _]; apply same_columns_refl|].
    destruct (find_timecol _ _) as [l'|] eqn:F; [|discriminate].
    intros [= <- _]. destruct K as ([R _] & _).
    apply (find_timecol_inl _ _ _ F R). }
  revert S. unfold step.
  destruct (prev_fields_line st && negb (starts_with "#types" line))%bool;
    [discriminate|].
  destruct (is_header line); cbn [negb].
  - destruct (process_header bopts st line) as [l pfl| |];
      try discriminate.
    specialize (P l pfl eq_refl).
    destruct (_ <=? Opt.showhdr bopts);
      [destruct (_ || _)%bool;
       [destruct (output_indexes true (until_nul line) l bopts) as [[o e]|];
        [|discriminate]|]|];
      intros [= <-]; exact P.
  - destruct (output_indexes false (until_nul line) (lp st) bopts) as [[o e]|];
      [|discriminate].
    intros [= <-]. apply same_columns_refl.
Qed.

Lemma steps_keep_columns bopts mid : forall st st',
  state_ok bopts st ->
  steps bopts st mid = Continue st' ->
  Forall (fun l => starts_with "#fields" l = false) mid ->
  same_columns (lp st) (lp st').
Proof.
  induction mid as [|l mid IH]; intros st st' K S F.
  - injection S as <-. apply same_columns_refl.
  - cbn [steps] in S. destruct (step bopts st l) as [st1| |] eqn:S1;
      try discriminate.
    inversion F as [|? ? Fl Fm]; subst.
    apply (same_columns_trans _ (lp st1)).
    + exact (step_keeps_columns _ _ _ _ K S1 Fl).
    + apply IH; [exact (step_state_ok _ _ _ _ K S1)|exact S|exact Fm].
Qed.

(** A #fields line that the loop gets past was resolved by
    [find_output_indexes] on the C string at offset 8 of the line. *)
Lemma step_fields_line bopts st line st' :
  step bopts st line = Continue st' ->
  starts_with "#fields" line = true ->
  find_output_indexes (offset 8 line) (lp st) bopts = Some (lp st').
Proof.
  intros S Fi. destruct (fields_line_kind _ Fi) as (H & Se & Ty).
  revert S. unfold step, process_header. rewrite H, Se, Fi, Ty.
  destruct (prev_fields_line st && negb false)%bool; [discriminate|].
  cbn [negb orb].
  destruct (find_output_indexes (offset 8 line) (lp st) bopts) as [l|];
    [|discriminate].
  intros S. f_equal.
  destruct (_ <=? Opt.showhdr bopts);
    [destruct (output_indexes true (until_nul line) l bopts) as [[o e]|];
     [|discriminate]|];
    injection S as <-; reflexivity.
Qed.

Lemma requested_indexes names l bopts l' :
  find_output_indexes names l bopts = Some l' ->
  Opt.columns bopts <> [] -> Opt.negate bopts = 0 ->
  out_indexes l'
  = map (string_index (all_fields (ifs l) names)) (Opt.columns bopts).
Proof.
  unfold find_output_indexes, all_fields. intros F C G.
  destruct (is_nul (ifs l)); [discriminate|].
  destruct (Opt.columns bopts) as [|c cs]; [congruence|].
  rewrite G in F. injection F as <-. reflexivity.
Qed.

Lemma last_line_is_app p xs ys :
  ys <> [] -> last_line_is p (xs ++ ys) = last_line_is p ys.
Proof.
  intros N. unfold last_line_is. rewrite rev_app_distr.
  destruct (rev ys) as [|y r] eqn:R; [|reflexivity].
  apply (f_equal (@rev string)) in R. rewrite rev_involutive in R.
  contradiction.
Qed.

Lemma last_line_is_forall p ys :
  ys <> [] -> Forall (fun l => p l = false) ys -> last_line_is p ys = false.
Proof.
  intros N F. unfold last_line_is. destruct (rev ys) as [|y r] eqn:R.
  - reflexivity.
  - rewrite Forall_forall in F. apply F. apply in_rev. rewrite R.
    left. reflexivity.
Qed.

End Persistence.

(** C1.  For a non-empty requested column list with negate off, once a
    #fields line has been resolved, every data line that the loop reaches
    before the next #fields line is written, unless it is skipped for
    having fewer fields than "idx_range", as exactly one cell for each
    requested name, in the order of the request: the cell of a name that
    the declared fields do not hold is empty, and the cell of any other
    name is the field of the line at the first declared position with
    that name (shown as a time when the column is converted), duplicates
    included.  The declared fields are those of the C string at offset 8
    of the #fields line, which is empty for the bare tag "#fields". *)
Theorem requested_columns_projected {clock : TimeText} (bopts : useropts)
  (pre : list string) (fline : string) (mid : list string) (line : string)
  (st0 st : state) :
  Opt.columns bopts <> [] ->
  Opt.negate bopts = 0 ->
  steps bopts init_state pre = Continue st0 ->
  starts_with "#fields" fline = true ->
  Forall (fun l => starts_with "#fields" l = false) mid ->
  mid <> [] ->
  steps bopts init_state (pre ++ fline :: mid) = Continue st ->
  is_header line = false ->
  exists st',
    step bopts st line = Continue st'
    /\ let declared := all_fields (ifs (lp st0)) (offset 8 fline) in
       let fs := all_fields (ifs (lp st)) (until_nul line) in
       let cell c := data_cell bopts (lp st) fs (string_index declared c) in
       out_indexes (lp st)
       = map (string_index declared) (Opt.columns bopts)
       /\ stdout st' = stdout st ++
            (if Z.of_nat (List.length fs) <? idx_range (lp st) then []
             else [join (buf2 (ofs (lp st)))
                     (map cell (Opt.columns bopts))])
       /\ List.length (map cell (Opt.columns bopts))
          = List.length (Opt.columns bopts)
       /\ (forall c, ~ In c declared -> cell c = EmptyString)
       /\ (forall c, In c declared ->
             let i := string_index declared c in
             nth_error declared (Z.to_nat i) = Some c
             /\ (forall j, (j < Z.to_nat i)%nat ->
                   nth_error declared j <> Some c)
             /\ cell c =
                if converted bopts (lp st) i
                then fst (time_text (Opt.timeconv bopts) (Opt.timefmt bopts)
                            (field_of fs i))
                else field_of fs i).
Proof.
  intros C G H0 Fi Fm Nm H Hd.
  destruct (reached_ok _ _ _ H0) as [K0 _].
  destruct (reached_ok _ _ _ H) as [K (_ & _ & Pf)].
  replace (pre ++ fline :: mid) with ((pre ++ [fline]) ++ mid) in Pf
    by (rewrite <- app_assoc; reflexivity).
  rewrite (last_line_is_app _ _ _ Nm), (last_line_is_forall _ _ Nm Fm) in Pf.
  rewrite steps_app, H0 in H. cbn [steps] in H.
  destruct (step bopts st0 fline) as [st1| |] eqn:S1; try discriminate.
  pose proof (step_fields_line _ _ _ _ S1 Fi) as F.
  set (names := offset 8 fline) in *.
  pose proof (steps_keep_columns _ _ _ _ (step_state_ok _ _ _ _ K0 S1) H Fm)
    as (So & Sr & St & Sn).
  pose proof (requested_indexes _ _ _ _ F C G) as O. rewrite <- So in O.
  destruct K as (I & R & _ & T). specialize (T Pf).
  pose proof (output_indexes_data (until_nul line) (lp st) bopts I R T) as D.
  cbn zeta in D.
  assert (E : exists st',
             step bopts st line = Continue st'
             /\ stdout st' = stdout st ++
                  (if Z.of_nat (List.length
                                  (all_fields (ifs (lp st))
                                     (until_nul line)))
                      <? idx_range (lp st) then []
                   else [join (buf2 (ofs (lp st)))
                           (map (data_cell bopts (lp st)
                                   (all_fields (ifs (lp st))
                                      (until_nul line)))
                              (out_indexes (lp st)))])).
  { unfold step. rewrite Pf, Hd. cbn [andb negb]. rewrite D.
    destruct (_ <? idx_range (lp st)); eexists; split; reflexivity. }
  destruct E as (st' & S & Out).
  exists st'. split; [exact S|].
  cbn zeta. split; [exact O|]. split.
  { rewrite Out, O, map_map. reflexivity. }
  split; [apply length_map|]. split.
  - intros c N. apply string_index_missing in N. unfold data_cell.
    rewrite N. reflexivity.
  - intros c N.
    assert (E : string_index (all_fields (ifs (lp st0)) names) c <> -1).
    { intros E. apply string_index_missing in E. contradiction. }
    destruct (string_index_first _ _ E) as [F1 F2].
    split; [exact F1|]. split; [exact F2|].
    unfold data_cell.
    destruct (Z.eqb_spec
                (string_index (all_fields (ifs (lp st0)) names) c) (-1));
      [contradiction|reflexivity].
Qed.

Lemma requested_columns_projected_witness :
  let bopts := default_opts ["c"; "zz"; "a"; "c"] in
  let log := ["#separator \x09"; tsv ["#fields"; "a"; "b"; "c"];
              tsv ["#types"; "x"; "y"; "z"]] in
  exists st st',
    steps (clock := no_clock) bopts init_state log = Continue st
    /\ step (clock := no_clock) bopts st (tsv ["1"; "2"; "3"]) = Continue st'
    /\ stdout st' = [tsv ["3"; ""; "1"; "3"]].
Proof.
  intros bopts log.
  destruct (requested_columns_projected (clock := no_clock) bopts
              ["#separator \x09"] (tsv ["#fields"; "a"; "b"; "c"])
              [tsv ["#types"; "x"; "y"; "z"]] (tsv ["1"; "2"; "3"]) _ _
              ltac:(discriminate) eq_refl eq_refl eq_refl
              ltac:(repeat constructor) ltac:(discriminate) eq_refl eq_refl)
    as (st' & S & _ & Out & _).
  eexists. exists st'. split; [reflexivity|]. split; [exact S|exact Out].
Defined.

Lemma negated_projection_witness :
  let bopts := {| Opt.showhdr := 0; Opt.negate := 1; Opt.timeconv := 0;
                  Opt.columns := ["b"; "zz"]; Opt.ofs := "";
                  Opt.timefmt := "" |} in
  exists lp',
    find_output_indexes (tsv ["a"; "b"; "c"]) init_lp bopts = Some lp'
    /\ out_indexes lp' = [0; 2] /\ idx_range lp' = 3
    /\ output_indexes (clock := no_clock) false (tsv ["1"; "2"; "3"]) lp' bopts
       = Some ([tsv ["1"; "3"]], []).
Proof.
  intros bopts.
  destruct (negated_projection (clock := no_clock) (tsv ["a"; "b"; "c"])
              init_lp bopts eq_refl ltac:(discriminate))
    as (lp' & F & O & _ & _ & _ & R & D).
  exists lp'. split; [exact F|]. split; [exact O|].
  split; [rewrite R, O; reflexivity|].
  assert (I : ifs lp' = TAB /\ ofs lp' = TAB /\ time_cols lp' = []).
  { injection F as <-. repeat split. }
  destruct I as (Ei & Eo & Et).
  rewrite (D lp' (tsv ["1"; "2"; "3"])).
  - rewrite Ei, Eo. reflexivity.
  - repeat split.
  - intros C. exfalso. apply C. reflexivity.
  - rewrite R, O, Ei. vm_compute. discriminate.
Defined.



(* ================================================================= *)
(** ** The output separator *)

Section Separators.

Context {clock : TimeText}.

(** Only a #separator line changes the separators, and it sets both. *)
Lemma step_separators bopts st line st' :
  step bopts st line = Continue st' ->
  if starts_with "#separator " line
  then exists sepstr,
         line = ("#separator " ++ sepstr)%string
         /\ ifs (lp st') = parsesep (until_nul sepstr)
         /\ ofs (lp st') = effective_ofs bopts (parsesep (until_nul sepstr))
  else ifs (lp st') = ifs (lp st) /\ ofs (lp st') = ofs (lp st).
Proof.
  intros S.
  assert (P : forall l pfl, process_header bopts st line = HOk l pfl ->
              if starts_with "#separator " line
              then exists sepstr,
                     line = ("#separator " ++ sepstr)%string
                     /\ ifs l = parsesep (until_nul sepstr)
                     /\ ofs l = effective_ofs bopts
                                (parsesep (until_nul sepstr))
              else ifs l = ifs (lp st) /\ ofs l = ofs (lp st)).
  { intros l pfl. unfold process_header.
    destruct (starts_with "#separator " line) eqn:Se.
    { destruct (separator_line_kind _ Se) as (_ & _ & _ & sepstr & A & E).
      rewrite A. intros [= <- _]. exists sepstr. repeat split. exact E. }
    destruct (starts_with "#fields" line).
    { set (names := offset 8 line) in *.
    destruct (find_output_indexes _ _ _) as [l'|] eqn:F; [|discriminate].
      intros [= <- _].
      destruct (find_output_indexes_ok names (lp st) bopts
                  (find_output_indexes_some _ _ _ _ F))
        as (l2 & F2 & _ & _ & _ & _ & Ei & Eo & _).
      rewrite F in F2. injection F2 as <-. split; assumption. }
    destruct (starts_with "#types" line);
      [|intros [= <- _]; split; reflexivity].
    destruct (negb (prev_fields_line st)); [discriminate|].
    destruct (Opt.timeconv bopts =? 0);
      [intros [= <- _]; split; reflexivity|].
    unfold find_timecol. destruct (take_fields _ _ _); [|discriminate].
    intros [= <- _]. split; reflexivity. }
  revert S. unfold step.
  destruct (prev_fields_line st && negb (starts_with "#types" line))%bool;
    [discriminate|].
  destruct (is_header line) eqn:H; cbn [negb].
  - destruct (process_header bopts st line) as [l pfl| |];
      try discriminate.
    specialize (P l pfl eq_refl).
    destruct (_ <=? Opt.showhdr bopts);
      [destruct (_ || _)%bool;
       [destruct (output_indexes true (until_nul line) l bopts) as [[o e]|];
        [|discriminate]|]|];
      intros [= <-]; exact P.
  - destruct (data_line_kind _ H) as (-> & _).
    destruct (output_indexes false (until_nul line) (lp st) bopts) as [[o e]|];
      [|discriminate].
    intros [= <-]. split; reflexivity.
Qed.

(** Once a #separator line has been read the output separator is the
    override when there is one and the declared input separator otherwise;
    before that both separators are the tab, whatever the override. *)
Lemma output_separator_tracking bopts pre : forall st,
  steps bopts init_state pre = Continue st ->
  (seen_separator pre = true ->
   ofs (lp st) = effective_ofs bopts (ifs (lp st)))
  /\ (seen_separator pre = false ->
      ifs (lp st) = TAB /\ ofs (lp st) = TAB).
Proof.
  induction pre as [|l pre IH] using rev_ind; intros st H.
  - injection H as <-. split; [discriminate|]. intros _. split; reflexivity.
  - apply steps_snoc in H. destruct H as (st0 & H0 & S).
    destruct (IH st0 H0) as [Y N].
    pose proof (step_separators _ _ _ _ S) as P.
    unfold seen_separator in *. rewrite existsb_app. cbn [existsb].
    rewrite orb_false_r.
    destruct (starts_with "#separator " l).
    + destruct P as (sepstr & _ & Ei & Eo). rewrite orb_true_r.
      split; [|discriminate]. intros _. rewrite Eo, Ei. reflexivity.
    + destruct P as [Ei Eo]. rewrite orb_false_r, Ei, Eo. split; assumption.
Qed.

End Separators.

(** C4, the defect at a concrete input.  With the override "," and a log
    that declares its fields without a #separator line, the data line is
    written with the tab, not with the override; the same log after a
    #separator line is written with the override. *)
Theorem override_ignored_without_separator_line :
  let bopts := {| Opt.showhdr := 0; Opt.negate := 0; Opt.timeconv := 0;
                  Opt.columns := []; Opt.ofs := ",";
                  Opt.timefmt := "" |} in
  let log := [tsv ["#fields"; "a"; "b"]; tsv ["#types"; "s"; "t"];
              tsv ["1"; "2"]] in
  bro_cut (clock := no_clock) bopts (text log) = Exit 0 [tsv ["1"; "2"]] []
  /\ bro_cut (clock := no_clock) bopts (text ("#separator \x09" :: log))
     = Exit 0 ["1,2"] [].
Proof. split; reflexivity. Qed.

(* ================================================================= *)
(** ** Further properties: lookups *)

(** X1.  [string_index] is a first-match lookup: it returns -1 exactly when
    the needle is not in the haystack, and otherwise an index within the
    haystack that holds the needle and before which no entry does. *)
Theorem string_index_first_match (haystack : list string) (needle : string) :
  (string_index haystack needle = -1 <-> ~ In needle haystack)
  /\ (In needle haystack ->
      let i := string_index haystack needle in
      0 <= i < Z.of_nat (List.length haystack)
      /\ nth_error haystack (Z.to_nat i) = Some needle
      /\ forall j, (j < Z.to_nat i)%nat ->
           nth_error haystack j <> Some needle).
Proof.
  split; [apply string_index_missing|].
  intros I i.
  assert (N : i <> -1).
  { intros E. apply string_index_missing in E. contradiction. }
  destruct (string_index_range haystack needle) as [E|R];
    [contradiction|].
  split; [exact R|]. apply string_index_first. exact N.
Qed.

Lemma string_index_first_match_witness :
  string_index ["ts"; "uid"; "ts"] "ts" = 0
  /\ string_index ["ts"; "uid"; "ts"] "id" = -1.
Proof.
  split.
  - destruct (string_index_first_match ["ts"; "uid"; "ts"] "ts") as [_ H].
    destruct (H (or_introl eq_refl)) as (_ & _ & F).
    destruct (string_index ["ts"; "uid"; "ts"] "ts") eqn:E;
      [reflexivity|discriminate E..].
  - apply (string_index_first_match ["ts"; "uid"; "ts"] "id").
    intros [H|[H|[H|[]]]]; discriminate H.
Defined.

(** X2.  [contains] returns 1 when the needle occurs in the haystack and 0
    when it does not, and nothing else. *)
Theorem contains_membership (haystack : list Z) (needle : Z) :
  (contains haystack needle = 1 <-> In needle haystack)
  /\ (contains haystack needle = 0 <-> ~ In needle haystack).
Proof.
  induction haystack as [|h t [IH1 IH0]]; cbn [contains In].
  - split; split; try tauto; discriminate.
  - destruct (Z.eqb_spec h needle) as [E|E].
    + split; split; try tauto; discriminate.
    + rewrite IH1, IH0. tauto.
Qed.

Lemma contains_membership_witness :
  contains [2; -1; 0] (-1) = 1 /\ contains [2; -1; 0] 1 = 0.
Proof.
  split.
  - apply (contains_membership [2; -1; 0] (-1)). right. left. reflexivity.
  - apply (contains_membership [2; -1; 0] 1).
    intros [H|[H|[H|[]]]]; discriminate H.
Defined.

(* ================================================================= *)
(** ** Further properties: the time columns *)

(** The two outcomes of [find_timecol]. *)
Lemma find_timecol_cases (line : string) (lp : logparams) :
  0 <= idx_range lp ->
  let fs := all_fields (ifs lp) line in
  (Z.of_nat (List.length fs) < idx_range lp ->
   find_timecol line lp = inr short_header_diag)
  /\ (idx_range lp <= Z.of_nat (List.length fs) ->
      exists lp',
        find_timecol line lp = inl lp'
        /\ Z.of_nat (List.length (time_cols lp')) = idx_range lp
        /\ (forall i, 0 <= i < idx_range lp ->
              nth (Z.to_nat i) (time_cols lp') false
              = String.eqb "time" (field_of fs i))
        /\ same_columns lp lp' /\ ifs lp' = ifs lp /\ ofs lp' = ofs lp).
Proof.
  intros R fs. unfold find_timecol. rewrite take_fields_line. fold fs.
  split; intros L.
  - destruct (Nat.leb_spec (Z.to_nat (idx_range lp)) (List.length fs));
      [lia|reflexivity].
  - destruct (Nat.leb_spec (Z.to_nat (idx_range lp)) (List.length fs));
      [|lia].
    eexists. split; [reflexivity|]. unfold set_time_cols, same_columns.
    cbn [time_cols out_indexes idx_range tmp_slots num_fields ifs ofs].
    rewrite length_map, length_firstn.
    split; [lia|]. split; [|repeat split].
    intros i Hi.
    change false with (String.eqb "time" "nottime").
    rewrite map_nth, nth_firstn.
    destruct (Nat.ltb_spec (Z.to_nat i) (Z.to_nat (idx_range lp))); [|lia].
    unfold field_of. f_equal. apply nth_indep. lia.
Qed.


(** X3.  [find_timecol] fails, with its diagnostic, exactly when the type
    list has fewer than "idx_range" fields; otherwise it leaves the output
    indexes and the separators alone and stores "idx_range" flags, flag [i]
    telling whether type field [i] is the string "time". *)
Theorem find_timecol_flags (line : string) (lp : logparams) :
  0 <= idx_range lp ->
  let fs := all_fields (ifs lp) line in
  (Z.of_nat (List.length fs) < idx_range lp ->
   find_timecol line lp = inr short_header_diag)
  /\ (idx_range lp <= Z.of_nat (List.length fs) ->
      exists lp',
        find_timecol line lp = inl lp'
        /\ Z.of_nat (List.length (time_cols lp')) = idx_range lp
        /\ (forall i, 0 <= i < idx_range lp ->
              nth (Z.to_nat i) (time_cols lp') false
              = String.eqb "time" (field_of fs i))
        /\ same_columns lp lp' /\ ifs lp' = ifs lp /\ ofs lp' = ofs lp).
Proof.
  intros R fs. destruct (find_timecol_cases line lp R) as [Short Full].
  split.
  - intros L. apply Short. exact L.
  - intros L. destruct (Full L) as (lp' & F & Rest).
    exists lp'. split; [exact F|exact Rest].
Qed.

Lemma find_timecol_flags_witness :
  let lp := {| out_indexes := [1; 0]; idx_range := 2; time_cols := [];
               tmp_slots := 4; num_fields := 3; ifs := TAB; ofs := TAB |} in
  find_timecol (tsv ["time"; "string"; "time"]) lp
  = inl (set_time_cols lp [true; false])
  /\ find_timecol "time" lp = inr short_header_diag.
Proof.
  intros lp. split.
  - destruct (find_timecol_flags (tsv ["time"; "string"; "time"]) lp
                ltac:(discriminate)) as [_ H].
    destruct (H ltac:(discriminate)) as (lp' & E & _).
    rewrite E. injection E as <-. reflexivity.
  - apply (find_timecol_flags "time" lp ltac:(discriminate)). reflexivity.
Defined.

(* ================================================================= *)
(** ** Further properties: selecting every column *)

Section AllColumns.

Context {clock : TimeText}.

(** Cutting a line at a separator and joining the fields with the same
    separator gives the line back. *)
Lemma join_tokens d s : join (String d EmptyString) (tokens d s) = s.
Proof.
  unfold join. induction s as [|c r IH]; [reflexivity|].
  cbn [tokens]. destruct (count_char_tokens d r) as [E P].
  destruct (tokens d r) as [|f fs]; [cbn [List.length] in E; lia|].
  destruct (Ascii.eqb_spec c d) as [->|N].
  - cbn [String.concat append] in *. rewrite IH. reflexivity.
  - destruct fs as [|g gs]; cbn [String.concat append] in *; rewrite IH;
      reflexivity.
Qed.

Lemma join_all_fields d s : join (buf2 d) (all_fields d s) = s.
Proof.
  unfold all_fields, buf2. destruct (is_nul d); [reflexivity|].
  apply join_tokens.
Qed.

Lemma map_field_of_iota fs n :
  (n <= List.length fs)%nat -> map (field_of fs) (iota n) = firstn n fs.
Proof.
  revert fs. unfold iota, field_of. induction n as [|n IH]; intros fs L;
    [reflexivity|].
  destruct fs as [|f fs]; [cbn in L; lia|].
  cbn [seq map firstn]. rewrite <- seq_shift, !map_map.
  f_equal. rewrite <- (IH fs) by (cbn in L; lia). rewrite map_map.
  apply map_ext. intros j. rewrite !Nat2Z.id. reflexivity.
Qed.

Lemma data_cell_plain bopts lp fs i :
  Opt.timeconv bopts = 0 -> i <> -1 ->
  data_cell bopts lp fs i = field_of fs i
  /\ data_diags bopts lp fs i = [].
Proof.
  intros T N. unfold data_cell, data_diags, converted. rewrite T.
  destruct (Z.eqb_spec i (-1)); [contradiction|]. split; reflexivity.
Qed.

End AllColumns.

(** X4.  With no requested columns the resolver selects every declared
    field in order and requires as many fields as were declared.  Without
    time conversion a data line with at least that many fields is written
    as its first fields up to the declared count, any further field being
    dropped; and when the output separator is the input separator, a line
    with exactly the declared number of fields is written unchanged. *)
Theorem all_columns_selected {clock : TimeText} (line : string)
  (lp : logparams) (bopts : useropts) :
  is_nul (ifs lp) = false ->
  Opt.columns bopts = [] ->
  Opt.timeconv bopts = 0 ->
  let n := List.length (all_fields (ifs lp) line) in
  exists lp',
    find_output_indexes line lp bopts = Some lp'
    /\ out_indexes lp' = iota n
    /\ idx_range lp' = Z.of_nat n
    /\ num_fields lp' = Z.of_nat n
    /\ forall lp2 data,
         same_columns lp' lp2 ->
         let fs := all_fields (ifs lp2) data in
         (n <= List.length fs)%nat ->
         output_indexes false data lp2 bopts
         = Some ([join (buf2 (ofs lp2)) (firstn n fs)], [])
         /\ (List.length fs = n -> ofs lp2 = ifs lp2 ->
             output_indexes false data lp2 bopts = Some ([data], [])).
Proof.
  intros N C T n.
  destruct (find_output_indexes_ok line lp bopts N)
    as (lp' & F & I & R & S1 & Nf & _).
  fold n in Nf.
  assert (O : out_indexes lp' = iota n /\ idx_range lp' = Z.of_nat n).
  { revert F. unfold find_output_indexes. rewrite N, C.
    destruct (count_char_tokens (ifs lp) line) as [E _].
    intros [= <-]. unfold set_indexes. cbn [out_indexes idx_range].
    unfold n, all_fields. rewrite N, E, Nat2Z.id. split; reflexivity. }
  destruct O as [O Ri].
  exists lp'. split; [exact F|]. split; [exact O|]. split; [exact Ri|].
  split; [exact Nf|].
  intros lp2 data (So & Sr & St & Sn) fs L.
  assert (I2 : indexes_in_range lp2).
  { unfold indexes_in_range in *. rewrite So, Sr. exact I. }
  assert (T2 : time_cols_ready bopts lp2) by (intros X; contradiction).
  pose proof (output_indexes_data data lp2 bopts I2 ltac:(lia) T2) as D.
  cbn zeta in D. fold fs in D.
  destruct (Z.ltb_spec (Z.of_nat (List.length fs)) (idx_range lp2)); [lia|].
  assert (Cells : map (data_cell bopts lp2 fs) (out_indexes lp2)
                  = firstn n fs).
  { rewrite So, O, <- (map_field_of_iota fs n L).
    apply map_ext_in. intros i Hi. apply iota_in in Hi.
    apply data_cell_plain; [exact T|lia]. }
  assert (Diags : flat_map (data_diags bopts lp2 fs) (out_indexes lp2)
                  = []).
  { assert (G : forall l0 : list Z, (forall j, In j l0 -> j <> -1) ->
                  flat_map (data_diags bopts lp2 fs) l0 = []).
    { intros l0. induction l0 as [|j l0 IH0]; intros Hl; [reflexivity|].
      cbn [flat_map].
      destruct (data_cell_plain bopts lp2 fs j T
                  (Hl j (or_introl eq_refl))) as [_ ->].
      apply IH0. intros k Hk. apply Hl. right. exact Hk. }
    rewrite So, O. apply G. intros j Hj. apply iota_in in Hj. lia. }
  rewrite D, Cells, Diags. split; [reflexivity|].
  intros Len Eo. rewrite Eo, <- Len, firstn_all. unfold fs.
  rewrite join_all_fields. reflexivity.
Qed.

Lemma all_columns_selected_witness :
  exists lp',
    find_output_indexes (tsv ["a"; "b"]) init_lp (default_opts []) = Some lp'
    /\ out_indexes lp' = [0; 1]
    /\ output_indexes (clock := no_clock) false (tsv ["1"; "2"; "3"]) lp'
         (default_opts [])
       = Some ([tsv ["1"; "2"]], []).
Proof.
  destruct (all_columns_selected (clock := no_clock) (tsv ["a"; "b"])
              init_lp (default_opts []) eq_refl eq_refl eq_refl)
    as (lp' & F & O & _ & _ & D).
  exists lp'. split; [exact F|]. split; [exact O|].
  assert (I : ifs lp' = TAB /\ ofs lp' = TAB).
  { injection F as <-. split; reflexivity. }
  destruct I as [Ei Eo].
  destruct (D lp' (tsv ["1"; "2"; "3"])) as [H _].
  - repeat split.
  - rewrite Ei. vm_compute. lia.
  - rewrite H, Ei, Eo. reflexivity.
Defined.

(* ================================================================= *)
(** ** Further properties: negation as a request *)

Section NegationAsRequest.

Lemma string_index_from_nodup h : forall i j,
  NoDup h -> (j < List.length h)%nat ->
  string_index_from i h (nth j h EmptyString) = i + Z.of_nat j.
Proof.
  induction h as [|x t IH]; intros i j D L; [cbn in L; lia|].
  inversion D as [|? ? Nx Dt]; subst.
  destruct j as [|j]; cbn [nth string_index_from].
  - rewrite String.eqb_refl. lia.
  - destruct (String.eqb_spec x (nth j t EmptyString)) as [E|E].
    + exfalso. apply Nx. rewrite E. apply nth_In. cbn in L. lia.
    + rewrite IH by (try assumption; cbn in L; lia). lia.
Qed.

Lemma kept_positions_as_request cols declared :
  NoDup declared ->
  map (string_index declared) (without cols declared)
  = kept_positions cols declared.
Proof.
  intros D. rewrite <- kept_positions_fields, map_map.
  rewrite <- (map_id (kept_positions cols declared)) at 2.
  apply map_ext_in. intros i Hi. apply kept_positions_in in Hi.
  destruct Hi as [R _]. unfold string_index, field_of.
  rewrite string_index_from_nodup by (try assumption; lia). lia.
Qed.

End NegationAsRequest.

(** X5.  When the declared field names are distinct, excluding a set of
    names with negate on resolves to the same output indexes and the same
    "idx_range" as requesting, with negate off, the declared names that are
    left, in declared order (as long as some name is left to request). *)
Theorem negation_is_request_of_the_rest (line : string) (lp : logparams)
  (bopts : useropts) :
  is_nul (ifs lp) = false ->
  Opt.negate bopts <> 0 ->
  let declared := all_fields (ifs lp) line in
  let rest := without (Opt.columns bopts) declared in
  NoDup declared ->
  rest <> [] ->
  exists lp',
    find_output_indexes line lp bopts = Some lp'
    /\ find_output_indexes line lp (with_request bopts 0 rest) = Some lp'.
Proof.
  intros N G declared rest D Ne.
  destruct (find_output_indexes_ok line lp bopts N) as (lp' & F & _).
  exists lp'. split; [exact F|].
  destruct (negated_indexes line lp bopts lp' N G F) as [O M].
  fold declared in O.
  revert F. unfold find_output_indexes. rewrite N.
  cbn [with_request Opt.columns Opt.negate Z.eqb].
  destruct rest as [|r0 rs] eqn:Er; [congruence|]. rewrite <- Er.
  assert (Oi : map (string_index (tokens (ifs lp) line)) rest
               = out_indexes lp').
  { unfold rest. rewrite O.
    replace (tokens (ifs lp) line) with declared
      by (unfold declared, all_fields; rewrite N; reflexivity).
    apply kept_positions_as_request. exact D. }
  rewrite Oi.
  assert (Mx : maxval_of (out_indexes lp') + 1 = idx_range lp').
  { rewrite M, maxval_of_resolved, resolved_all; [lia|].
    intros i Hi. rewrite O in Hi. apply kept_positions_in in Hi. lia. }
  rewrite Mx.
  destruct (Opt.columns bopts) as [|c cs].
  - intros [= <-]. reflexivity.
  - destruct (Opt.negate bopts =? 0); intros [= <-]; reflexivity.
Qed.

Lemma negation_is_request_of_the_rest_witness :
  let excluding := {| Opt.showhdr := 0; Opt.negate := 1; Opt.timeconv := 0;
                      Opt.columns := ["b"]; Opt.ofs := "";
                      Opt.timefmt := "" |} in
  find_output_indexes (tsv ["a"; "b"; "c"]) init_lp excluding
  = find_output_indexes (tsv ["a"; "b"; "c"]) init_lp
      (with_request excluding 0 ["a"; "c"]).
Proof.
  intros excluding.
  destruct (negation_is_request_of_the_rest (tsv ["a"; "b"; "c"]) init_lp
              excluding eq_refl ltac:(discriminate))
    as (lp' & F & G).
  - repeat constructor; cbn; intros H;
      repeat (destruct H as [H|H]; [discriminate H|]); exact H.
  - discriminate.
  - rewrite F. symmetry. exact G.
Defined.

(* ================================================================= *)
(** ** Further properties: reading the input *)

Section Reading.

Lemma text_cons l ls :
  text (l :: ls) = (l ++ String LF (text ls))%string.
Proof.
  unfold text. cbn [map String.concat].
  destruct ls as [|l' ls']; cbn [map].
  - reflexivity.
  - set (rest := String.concat _ _). clearbody rest.
    induction l as [|c l IH]; cbn [append]; [reflexivity|].
    f_equal. exact IH.
Qed.

Lemma getlines_line l rest :
  plain l = true ->
  getlines (l ++ String LF rest)
  = (l ++ String LF EmptyString)%string :: getlines rest.
Proof.
  induction l as [|c l IH]; intros P.
  - cbn [append getlines]. rewrite Ascii.eqb_refl. reflexivity.
  - cbn [plain] in P. apply andb_true_iff in P. destruct P as [P Pl].
    apply andb_true_iff in P. destruct P as [Pc _].
    apply negb_true_iff in Pc.
    cbn [append getlines]. rewrite Pc, (IH Pl). reflexivity.
Qed.

Lemma getlines_unterminated l :
  plain l = true -> l <> EmptyString -> getlines l = [l].
Proof.
  induction l as [|c l IH]; intros P N; [congruence|].
  cbn [plain] in P. apply andb_true_iff in P. destruct P as [P Pl].
  apply andb_true_iff in P. destruct P as [Pc _].
  apply negb_true_iff in Pc. cbn [getlines]. rewrite Pc.
  destruct l as [|c' l']; [reflexivity|].
  rewrite IH by (try assumption; discriminate). reflexivity.
Qed.

Lemma drop_last_line l : drop_last (l ++ String LF EmptyString) = l.
Proof.
  induction l as [|c l IH]; [reflexivity|].
  cbn [append drop_last]. rewrite IH.
  destruct (l ++ String LF EmptyString)%string eqn:E; [|reflexivity].
  destruct l; discriminate E.
Qed.

Lemma until_nul_plain l : plain l = true -> until_nul l = l.
Proof.
  induction l as [|c l IH]; intros P; [reflexivity|].
  cbn [plain] in P. apply andb_true_iff in P. destruct P as [P Pl].
  apply andb_true_iff in P. destruct P as [_ Pn].
  apply negb_true_iff in Pn. cbn [until_nul]. rewrite Pn, (IH Pl).
  reflexivity.
Qed.

Lemma plain_drop_last l : plain l = true -> plain (drop_last l) = true.
Proof.
  induction l as [|c l IH]; intros P; [reflexivity|].
  cbn [plain] in P. apply andb_true_iff in P. destruct P as [Pc Pl].
  cbn [drop_last]. destruct l as [|c' l']; [reflexivity|].
  cbn [plain]. rewrite Pc. exact (IH Pl).
Qed.

End Reading.

(** X6.  Reading is faithful on terminated lines, and cuts the last byte of
    an unterminated one: for lines that hold no line feed and no NUL, the
    loop body sees exactly those lines when each ends with a line feed; and
    when the input ends with a non-empty line that has no line feed, that
    line reaches the loop body without its last byte. *)
Theorem lines_read (lines : list string) (last : string) :
  Forall (fun l => plain l = true) lines ->
  map chomp (getlines (text lines)) = lines
  /\ (plain last = true -> last <> EmptyString ->
      map chomp (getlines (text lines ++ last))
      = lines ++ [drop_last last]).
Proof.
  intros F. induction F as [|l ls Pl _ [IH1 IH2]].
  - split; [reflexivity|]. intros P N. cbn [text map String.concat append].
    rewrite (getlines_unterminated _ P N). cbn [map]. unfold chomp.
    rewrite until_nul_plain by (apply plain_drop_last; exact P).
    reflexivity.
  - rewrite text_cons. split.
    + rewrite (getlines_line _ _ Pl). cbn [map]. rewrite IH1.
      unfold chomp. rewrite drop_last_line, (until_nul_plain _ Pl).
      reflexivity.
    + intros P N.
      assert (A : ((l ++ String LF (text ls)) ++ last)%string
                  = (l ++ String LF (text ls ++ last))%string).
      { clear. induction l as [|c l IH]; cbn [append]; [reflexivity|].
        f_equal. exact IH. }
      rewrite A, (getlines_line _ _ Pl). cbn [map]. rewrite (IH2 P N).
      unfold chomp. rewrite drop_last_line, (until_nul_plain _ Pl).
      reflexivity.
Qed.

Lemma lines_read_witness :
  map chomp (getlines (text ["#fields"; "a"])) = ["#fields"; "a"]
  /\ map chomp (getlines (text ["a"] ++ "12")) = ["a"; "1"].
Proof.
  destruct (lines_read ["#fields"; "a"] "x") as [H _];
    [repeat constructor|].
  destruct (lines_read ["a"] "12") as [_ H']; [repeat constructor|].
  split; [exact H|]. apply H'; [reflexivity|discriminate].
Defined.

(* ================================================================= *)
(** ** Further properties: a log without header lines *)

Section Headerless.

Context {clock : TimeText}.

Lemma steps_headerless bopts lines : forall st,
  lp st = init_lp -> prev_fields_line st = false ->
  Forall (fun l => is_header l = false) lines ->
  exists st',
    steps bopts st lines = Continue st'
    /\ stdout st' = stdout st ++ repeat EmptyString (List.length lines)
    /\ stderr st' = stderr st.
Proof.
  induction lines as [|l ls IH]; intros st L P F.
  - exists st. cbn. rewrite !app_nil_r. auto.
  - inversion F as [|? ? Hl Fl]; subst.
    cbn [steps]. unfold step. rewrite P, Hl, L. cbn [andb negb].
    change (output_indexes false l init_lp bopts)
      with (Some ([EmptyString], @nil string)).
    destruct (IH (emit st init_lp (headers_seen st) false false
                    [EmptyString] []) eq_refl eq_refl Fl)
      as (st' & S & O & E).
    exists st'. split; [exact S|]. rewrite O, E. cbn.
    rewrite <- app_assoc, app_nil_r. auto.
Qed.

End Headerless.

(** X7.  On an input without any header line, whatever the options, every
    line is written as an empty line: no column is known yet, nothing is
    skipped, no diagnostic is written, and the run returns 0. *)
Theorem headerless_log_gives_empty_lines {clock : TimeText}
  (bopts : useropts) (lines : list string) :
  Forall (fun l => is_header l = false) lines ->
  bro_cut_lines bopts lines
  = Exit 0 (repeat EmptyString (List.length lines)) [].
Proof.
  intros F.
  destruct (steps_headerless bopts lines init_state eq_refl eq_refl F)
    as (st' & S & O & E).
  unfold bro_cut_lines. rewrite S, O, E. reflexivity.
Qed.

Lemma headerless_log_gives_empty_lines_witness :
  bro_cut_lines (clock := no_clock) (default_opts ["a"])
    [tsv ["1"; "2"]; ""; "x"]
  = Exit 0 [""; ""; ""] [].
Proof.
  apply (headerless_log_gives_empty_lines (clock := no_clock)
           (default_opts ["a"]) [tsv ["1"; "2"]; ""; "x"]).
  repeat constructor.
Defined.

(* ================================================================= *)
(** ** Further properties: where the loop is undefined *)

Section Safety.

Context {clock : TimeText}.

Lemma find_output_indexes_none names l bopts :
  find_output_indexes names l bopts = None <-> is_nul (ifs l) = true.
Proof.
  split.
  - intros H. destruct (is_nul (ifs l)) eqn:N; [reflexivity|].
    destruct (find_output_indexes_ok names l bopts N) as (l' & F & _).
    congruence.
  - intros N. unfold find_output_indexes. rewrite N. reflexivity.
Qed.

(** The header branch is undefined only where the field count of a #fields
    line runs under a NUL input separator. *)
Lemma process_header_undefined bopts st line :
  process_header bopts st line = HUndef <->
  starts_with "#fields" line = true /\ is_nul (ifs (lp st)) = true.
Proof.
  unfold process_header.
  destruct (starts_with "#separator " line) eqn:Se.
  { destruct (separator_line_kind _ Se) as (_ & Fi & _).
    rewrite Fi. split; [discriminate|]. intros [H _]; discriminate H. }
  destruct (starts_with "#fields" line) eqn:Fi.
  { pose proof (find_output_indexes_none (offset 8 line) (lp st) bopts)
      as Fn.
    destruct (find_output_indexes _ _ _).
    - split; [discriminate|]. intros [_ H]. apply Fn in H. discriminate H.
    - split; [|reflexivity]. intros _. split; [reflexivity|].
      apply Fn. reflexivity. }
  destruct (starts_with "#types" line) eqn:Ty.
  { destruct (negb (prev_fields_line st)).
    - split; [discriminate|]. intros [H _]; discriminate H.
    - destruct (Opt.timeconv bopts =? 0).
      + split; [discriminate|]. intros [H _]; discriminate H.
      + destruct (find_timecol _ _); (split; [discriminate|]);
          intros [H _]; discriminate H. }
  split; [discriminate|]. intros [H _]; discriminate H.
Qed.

(** From a state that satisfies the invariant, and with the text of a time
    stamp taken as the clock gives it, a step is undefined only there. *)
Lemma step_undefined bopts st line :
  state_ok bopts st ->
  (step bopts st line = Undef <->
   prev_fields_line st = false /\ starts_with "#fields" line = true
   /\ is_nul (ifs (lp st)) = true).
Proof.
  intros K. pose proof (process_header_undefined bopts st line) as U.
  unfold step.
  destruct (prev_fields_line st) eqn:P; cbn [andb].
  - destruct (starts_with "#types" line) eqn:Ty; cbn [negb].
    + destruct (types_line_kind _ Ty) as (H & _ & Fi). rewrite H.
      cbn [negb].
      destruct (process_header bopts st line) as [l pfl| |] eqn:Ph.
      * pose proof (process_header_ok _ _ _ _ _ K Ph) as (I & _).
        pose proof (process_header_room _ _ _ _ _ K Ph) as R.
        rewrite Ty, orb_true_r in *.
        pose proof (output_indexes_header (until_nul line) l bopts I
                      (R eq_refl)) as O.
        cbn zeta in O. rewrite O.
        split; [|intros (H0 & _); discriminate H0].
        destruct (_ <=? Opt.showhdr bopts);
          [destruct (_ <? idx_range l + 1)|]; discriminate.
      * split; [discriminate|]. intros (H0 & _); discriminate H0.
      * destruct (proj1 U eq_refl) as (F & _). congruence.
    + split; [discriminate|]. intros (H0 & _); discriminate H0.
  - destruct (is_header line) eqn:H; cbn [negb].
    + destruct (process_header bopts st line) as [l pfl| |] eqn:Ph.
      * pose proof (process_header_ok _ _ _ _ _ K Ph) as (I & _).
        pose proof (process_header_room _ _ _ _ _ K Ph) as R.
        split.
        -- destruct (_ <=? Opt.showhdr bopts); [|discriminate].
           destruct (_ || _)%bool; [|discriminate].
           pose proof (output_indexes_header (until_nul line) l bopts I
                         (R eq_refl)) as O.
           cbn zeta in O. rewrite O.
           destruct (_ <? idx_range l + 1); discriminate.
        -- intros (_ & F & B).
           assert (X : @HOk l pfl = HUndef); [|discriminate X].
           apply U. split; assumption.
      * split; [discriminate|].
        intros (_ & F & B).
        assert (X : @HFatal e = HUndef); [|discriminate X].
        apply U. split; assumption.
      * split; [|reflexivity]. intros _.
        destruct (proj1 U eq_refl) as (F & B).
        repeat split; assumption.
    + destruct K as (I & R & _ & T).
      pose proof (output_indexes_data (until_nul line) (lp st) bopts I R
                    (T P)) as O.
      cbn zeta in O. rewrite O.
      destruct (data_line_kind _ H) as (_ & Fi & _).
      split.
      * destruct (_ <? idx_range (lp st)); discriminate.
      * intros (_ & F & _). congruence.
Qed.

(** The input separator is NUL only after a #separator line that declares
    it. *)
Lemma reached_separator bopts pre : forall st,
  steps bopts init_state pre = Continue st ->
  existsb declares_nul pre = false ->
  is_nul (ifs (lp st)) = false.
Proof.
  induction pre as [|l pre IH] using rev_ind; intros st H N.
  - injection H as <-. reflexivity.
  - apply steps_snoc in H. destruct H as (st0 & H0 & H1).
    rewrite existsb_app in N. apply orb_false_iff in N.
    destruct N as [Np Nl]. cbn [existsb] in Nl. rewrite orb_false_r in Nl.
    pose proof (step_separators _ _ _ _ H1) as P.
    unfold declares_nul in Nl.
    destruct (starts_with "#separator " l) eqn:Se.
    + destruct P as (sepstr & -> & Ei & _). rewrite Ei. exact Nl.
    + destruct P as [Ei _]. rewrite Ei. exact (IH st0 H0 Np).
Qed.

(** With the text of a time stamp taken as the clock gives it, a run is
    undefined only after a #separator line that declares the NUL byte. *)
Lemma steps_defined bopts lines :
  existsb declares_nul lines = false ->
  steps bopts init_state lines <> Undef.
Proof.
  induction lines as [|l pre IH] using rev_ind; intros N.
  - discriminate.
  - rewrite existsb_app in N. apply orb_false_iff in N.
    destruct N as [Np _]. rewrite steps_app. specialize (IH Np).
    destruct (steps bopts init_state pre) as [st| |] eqn:H;
      [|discriminate|contradiction].
    cbn [steps]. destruct (step bopts st l) eqn:H1; try discriminate.
    apply (step_undefined bopts st l (proj1 (reached_ok _ _ _ H))) in H1.
    destruct H1 as (_ & _ & H1).
    rewrite (reached_separator _ _ _ H Np) in H1. discriminate H1.
Qed.

End Safety.

(** X8.  Without time conversion, from every state that a run reaches,
    one more line leaves the C loop undefined in exactly one case: a
    #fields line, not directly after another #fields line, read while the
    input separator is the NUL character (the field count then reads past
    the end of the line).  The bare tags "#fields" and "#types" are
    defined like any other header line, and no data line and no header
    line ever makes the projector write past its scratch array or read a
    slot that was not written.  The separator is NUL only after a
    #separator line that declares it, so a run over a log without such a
    line always ends, with a status and what it wrote.  With time
    conversion on there is the further case, which the abstract clock of
    this model leaves out, of a time stamp that the C library cannot
    break down. *)
Theorem loop_undefined_only_under_nul_separator {clock : TimeText}
  (bopts : useropts) :
  Opt.timeconv bopts = 0 ->
  (forall pre st line,
     steps bopts init_state pre = Continue st ->
     (step bopts st line = Undef <->
      prev_fields_line st = false /\ starts_with "#fields" line = true
      /\ is_nul (ifs (lp st)) = true))
  /\ (forall lines,
        existsb declares_nul lines = false ->
        exists ret out err, bro_cut_lines bopts lines = Exit ret out err).
Proof.
  intros _. split.
  - intros pre st line H.
    exact (step_undefined bopts st line (proj1 (reached_ok _ _ _ H))).
  - intros lines N. pose proof (steps_defined bopts lines N) as D.
    unfold bro_cut_lines.
    destruct (steps bopts init_state lines) as [st|st|];
      [eauto..|contradiction].
Qed.

Lemma loop_undefined_only_under_nul_separator_witness :
  (exists st,
     steps (clock := no_clock) (default_opts []) init_state
       ["#separator \xzz"] = Continue st
     /\ step (clock := no_clock) (default_opts []) st
          (tsv ["#fields"; "a"]) = Undef)
  /\ exists ret out err,
       bro_cut_lines (clock := no_clock) (default_opts [])
         ["#separator \x09"; "#fields"; "#types"; "1"]
       = Exit ret out err.
Proof.
  destruct (loop_undefined_only_under_nul_separator (clock := no_clock)
              (default_opts []) eq_refl) as [U D].
  split.
  - eexists. split; [reflexivity|].
    apply (U ["#separator \xzz"] _ (tsv ["#fields"; "a"]) eq_refl).
    split; [reflexivity|]. split; reflexivity.
  - apply D. reflexivity.
Defined.

(* ================================================================= *)
(** ** Further properties: what a run writes *)

Section Streams.

Context {clock : TimeText}.

Lemma output_field_diags hdr tc ttc l bopts tmp i txt e :
  output_field hdr tc ttc l bopts tmp i = Some (txt, e) ->
  Forall recoverable e.
Proof.
  unfold output_field. destruct (i =? -1); [intros [= _ <-]; constructor|].
  assert (P : match at_index tmp (i + (if hdr then 1 else 0)) with
              | Some f =>
                  if (ttc && String.eqb "time" f)%bool
                  then Some ("string", @nil string) else Some (f, [])
              | None => None
              end = Some (txt, e) -> Forall recoverable e).
  { destruct (at_index tmp _); [|discriminate].
    destruct (_ && _)%bool; intros [= _ <-]; constructor. }
  destruct tc; [|exact P].
  destruct (at_index (time_cols l) i) as [[|]|]; [|exact P|discriminate].
  destruct (at_index tmp i); [|discriminate].
  destruct (time_text _ _ _) as [tbuf [|]]; intros [= _ <-];
    [constructor; [right; reflexivity|constructor]|constructor].
Qed.

Lemma output_loop_diags hdr tc ttc l bopts tmp idxs : forall fd txt e,
  output_loop hdr tc ttc l bopts tmp idxs fd = Some (txt, e) ->
  Forall recoverable e.
Proof.
  induction idxs as [|i r IH]; intros fd txt e; cbn [output_loop].
  - intros [= _ <-]. constructor.
  - destruct (output_field hdr tc ttc l bopts tmp i) as [[t1 e1]|] eqn:F;
      [|discriminate].
    destruct (output_loop hdr tc ttc l bopts tmp r true) as [[t2 e2]|] eqn:L;
      [|discriminate].
    intros [= _ <-]. apply Forall_app. split.
    + exact (output_field_diags _ _ _ _ _ _ _ _ _ F).
    + exact (IH _ _ _ L).
Qed.

(** A call of the projector writes at most one record, and only
    diagnostics after which the loop goes on. *)
Lemma output_indexes_writes hdr line l bopts o e :
  output_indexes hdr line l bopts = Some (o, e) ->
  (List.length o <= 1)%nat /\ Forall recoverable e.
Proof.
  unfold output_indexes. destruct (tmp_slots l <? _); [discriminate|].
  destruct (take_fields _ _ _) as [tmp|].
  - destruct (if hdr then at_index tmp 0 else Some EmptyString) as [tag|];
      [|discriminate].
    destruct (output_loop _ _ _ _ _ _ _ _) as [[txt e']|] eqn:L;
      [|discriminate].
    intros [= <- <-]. split; [cbn; lia|].
    exact (output_loop_diags _ _ _ _ _ _ _ _ _ _ L).
  - intros [= <- <-]. split; [cbn; lia|].
    constructor; [left; reflexivity|constructor].
Qed.

Lemma process_header_fatal bopts st line e :
  process_header bopts st line = HFatal e ->
  exists d, e = [d] /\ fatal_diag d.
Proof.
  unfold process_header.
  destruct (starts_with "#separator " line); [discriminate|].
  destruct (starts_with "#fields" line).
  { destruct (find_output_indexes _ _ _); discriminate. }
  destruct (starts_with "#types" line); [|discriminate].
  destruct (negb (prev_fields_line st)).
  { intros [= <-]. eexists. split; [reflexivity|]. right. left.
    reflexivity. }
  destruct (Opt.timeconv bopts =? 0); [discriminate|].
  unfold find_timecol. destruct (take_fields _ _ _); [discriminate|].
  intros [= <-]. eexists. split; [reflexivity|]. right. right. reflexivity.
Qed.

(** One round of the loop: what it adds to stdout and stderr. *)
Lemma step_writes bopts st line :
  match step bopts st line with
  | Continue st' =>
      exists o e, stdout st' = stdout st ++ o /\ stderr st' = stderr st ++ e
                  /\ (List.length o <= 1)%nat /\ Forall recoverable e
  | Fatal st' =>
      exists d, stdout st' = stdout st /\ stderr st' = stderr st ++ [d]
                /\ fatal_diag d
  | Undef => True
  end.
Proof.
  unfold step.
  destruct (prev_fields_line st && negb (starts_with "#types" line))%bool.
  { exists missing_types_diag. cbn. rewrite app_nil_r.
    repeat split. left. reflexivity. }
  destruct (is_header line); cbn [negb].
  - destruct (process_header bopts st line) as [l pfl|e|] eqn:Ph;
      [| |exact I].
    + destruct (_ <=? Opt.showhdr bopts).
      * destruct (_ || _)%bool.
        -- destruct (output_indexes true (until_nul line) l bopts)
             as [[o e]|] eqn:O; [|exact I].
           destruct (output_indexes_writes _ _ _ _ _ _ O) as [Lo Fe].
           exists o, e. cbn. auto.
        -- exists [until_nul line], []. cbn.
           repeat split; [lia|constructor].
      * exists [], []. cbn. repeat split; [lia|constructor].
    + destruct (process_header_fatal _ _ _ _ Ph) as (d & -> & Fd).
      exists d. cbn. rewrite app_nil_r. auto.
  - destruct (output_indexes false (until_nul line) (lp st) bopts)
      as [[o e]|] eqn:O; [|exact I].
    destruct (output_indexes_writes _ _ _ _ _ _ O) as [Lo Fe].
    exists o, e. cbn. auto.
Qed.

Lemma steps_write bopts lines : forall st,
  match steps bopts st lines with
  | Continue st' =>
      exists o e, stdout st' = stdout st ++ o /\ stderr st' = stderr st ++ e
                  /\ (List.length o <= List.length lines)%nat
                  /\ Forall recoverable e
  | Fatal st' =>
      exists o e d,
        stdout st' = stdout st ++ o /\ stderr st' = stderr st ++ e ++ [d]
        /\ (List.length o < List.length lines)%nat
        /\ Forall recoverable e /\ fatal_diag d
  | Undef => True
  end.
Proof.
  induction lines as [|l ls IH]; intros st.
  - cbn. exists [], []. rewrite !app_nil_r. repeat split; constructor.
  - cbn [steps]. pose proof (step_writes bopts st l) as W.
    destruct (step bopts st l) as [st1|st1|].
    + destruct W as (o1 & e1 & O1 & E1 & L1 & F1).
      specialize (IH st1). destruct (steps bopts st1 ls) as [st'|st'|].
      * destruct IH as (o & e & O & E & L & F).
        exists (o1 ++ o), (e1 ++ e). rewrite O, E, O1, E1, !app_assoc.
        rewrite length_app. cbn [List.length].
        repeat split; [lia|]. apply Forall_app. split; assumption.
      * destruct IH as (o & e & d & O & E & L & F & D).
        exists (o1 ++ o), (e1 ++ e), d.
        rewrite O, E, O1, E1, !app_assoc, length_app. cbn [List.length].
        repeat split; [lia| |exact D]. apply Forall_app. split; assumption.
      * exact I.
    + destruct W as (d & O & E & D). exists [], [], d.
      rewrite O, E, app_nil_r. cbn. repeat split; [lia|constructor|exact D].
    + exact I.
Qed.

End Streams.

(** X9.  Output is append-only and bounded by the input, counted in
    records: what a run has written after some lines is a prefix of what
    it has written after more lines, on stdout and on stderr, and each
    line read in between adds at most one record to stdout, a record being
    what one call of puts or one pass of the output loop writes and ends
    with a line feed; so a run writes at most as many records as it reads
    lines.  A record is one line of text unless the output separator is
    itself the line feed, or a time stamp is written with one: then it
    holds line feeds of its own, and the bound is on records, not on
    lines of text. *)
Theorem output_is_append_only {clock : TimeText} (bopts : useropts)
  (pre rest : list string) (st : state) (ret : Z) (out err : list string) :
  steps bopts init_state pre = Continue st ->
  bro_cut_lines bopts (pre ++ rest) = Exit ret out err ->
  (exists o e,
     out = stdout st ++ o /\ err = stderr st ++ e
     /\ (List.length o <= List.length rest)%nat)
  /\ (List.length out <= List.length (pre ++ rest))%nat.
Proof.
  intros H B. split.
  - revert B. unfold bro_cut_lines. rewrite steps_app, H.
    pose proof (steps_write bopts rest st) as W.
    destruct (steps bopts st rest) as [st'|st'|]; [| |discriminate].
    + destruct W as (o & e & O & E & L & _). intros [= _ <- <-].
      exists o, e. auto.
    + destruct W as (o & e & d & O & E & L & _). intros [= _ <- <-].
      exists o, (e ++ [d]). repeat split; [assumption..|lia].
  - revert B. unfold bro_cut_lines.
    pose proof (steps_write bopts (pre ++ rest) init_state) as W.
    destruct (steps bopts init_state (pre ++ rest)) as [st'|st'|];
      [| |discriminate].
    + destruct W as (o & e & O & _ & L & _). intros [= _ <- _].
      rewrite O. exact L.
    + destruct W as (o & e & d & O & _ & L & _). intros [= _ <- _].
      rewrite O. cbn [stdout init_state app]. lia.
Qed.

Lemma output_is_append_only_witness :
  (exists o e,
     ["#separator \x09"; "#close"; tsv ["#fields"; "a"; "b"];
      tsv ["#types"; "s"; "t"]]
     = ["#separator \x09"; "#close"; tsv ["#fields"; "a"; "b"]] ++ o
     /\ @nil string = [] ++ e /\ (List.length o <= 1)%nat)
  /\ (4 <= 4)%nat.
Proof.
  exact (output_is_append_only (clock := no_clock)
           {| Opt.showhdr := 1; Opt.negate := 0; Opt.timeconv := 0;
              Opt.columns := []; Opt.ofs := ""; Opt.timefmt := "" |}
           ["#separator \x09"; "#close"; tsv ["#fields"; "a"; "b"]]
           [tsv ["#types"; "s"; "t"]] _ 0
           ["#separator \x09"; "#close"; tsv ["#fields"; "a"; "b"];
            tsv ["#types"; "s"; "t"]] [] eq_refl eq_refl).
Defined.

(** A record that holds a line feed of its own: with the line feed as the
    override, one data line of two fields gives one record, which reads as
    two lines of text. *)
Example record_with_line_feed :
  let by_line := {| Opt.showhdr := 0; Opt.negate := 0; Opt.timeconv := 0;
                    Opt.columns := []; Opt.ofs := String LF EmptyString;
                    Opt.timefmt := "" |} in
  bro_cut (clock := no_clock) by_line
    (text ["#separator \x09"; tsv ["#fields"; "a"; "b"];
           tsv ["#types"; "s"; "t"]; tsv ["1"; "2"]])
  = Exit 0 [String "1" (String LF "2")] [].
Proof. reflexivity. Qed.

(** X10.  The exit status tells the kind of the last diagnostic: a run
    returns 0 or 1; when it returns 0 every diagnostic on stderr is one
    after which the loop goes on (a skipped line, a truncated timestamp);
    when it returns 1 the last diagnostic is one of the three that end the
    loop (missing #types line, missing #fields line, type list too short)
    and every diagnostic before it is of the first kind. *)
Theorem exit_status_and_diagnostics {clock : TimeText} (bopts : useropts)
  (lines : list string) (ret : Z) (out err : list string) :
  bro_cut_lines bopts lines = Exit ret out err ->
  (ret = 0 /\ Forall recoverable err)
  \/ (ret = 1 /\ exists e d, err = e ++ [d] /\ Forall recoverable e
                             /\ fatal_diag d).
Proof.
  unfold bro_cut_lines.
  pose proof (steps_write bopts lines init_state) as W.
  destruct (steps bopts init_state lines) as [st'|st'|]; [| |discriminate].
  - destruct W as (o & e & _ & E & _ & F). intros [= <- _ <-].
    left. split; [reflexivity|]. rewrite E. exact F.
  - destruct W as (o & e & d & _ & E & _ & F & D). intros [= <- _ <-].
    right. split; [reflexivity|]. exists e, d. rewrite E. auto.
Qed.

Lemma exit_status_and_diagnostics_witness :
  (1 = 0 /\ Forall recoverable [skip_diag; missing_types_diag])
  \/ (1 = 1 /\ exists e d, [skip_diag; missing_types_diag] = e ++ [d]
                           /\ Forall recoverable e /\ fatal_diag d).
Proof.
  exact (exit_status_and_diagnostics (clock := no_clock)
           (default_opts ["b"])
           [tsv ["#fields"; "a"; "b"]; tsv ["#types"; "s"; "t"]; "x";
            tsv ["#fields"; "a"]; "y"]
           1 [] [skip_diag; missing_types_diag] eq_refl).
Defined.

(* ================================================================= *)
(** ** Further properties: the header block *)

Section HeaderBlock.

Context {clock : TimeText}.

Lemma steps_keep_separators bopts mid : forall st st',
  steps bopts st mid = Continue st' ->
  seen_separator mid = false ->
  ifs (lp st') = ifs (lp st) /\ ofs (lp st') = ofs (lp st).
Proof.
  induction mid as [|l mid IH]; intros st st' S N.
  - injection S as <-. split; reflexivity.
  - cbn [steps] in S. destruct (step bopts st l) as [st1| |] eqn:S1;
      try discriminate.
    unfold seen_separator in N. cbn [existsb] in N.
    apply orb_false_iff in N. destruct N as [Nl Nm].
    pose proof (step_separators _ _ _ _ S1) as P. rewrite Nl in P.
    destruct P as [Ei Eo]. destruct (IH st1 st' S Nm) as [Ei' Eo'].
    split; congruence.
Qed.

(** "idx_range" never exceeds the declared number of fields. *)
Lemma reached_range bopts pre : forall st,
  steps bopts init_state pre = Continue st ->
  idx_range (lp st) <= num_fields (lp st).
Proof.
  induction pre as [|l pre IH] using rev_ind; intros st H.
  - injection H as <-. cbn. lia.
  - apply steps_snoc in H. destruct H as (st0 & H0 & S).
    destruct (reached_ok _ _ _ H0) as [K _].
    destruct (starts_with "#fields" l) eqn:Fi.
    + pose proof (step_fields_line _ _ _ _ S Fi) as F.
      destruct (find_output_indexes_ok (offset 8 l) (lp st0) bopts
                  (find_output_indexes_some _ _ _ _ F))
        as (l2 & F2 & _ & R & _).
      rewrite F in F2. injection F2 as <-. lia.
    + destruct (step_keeps_columns _ _ _ _ K S Fi) as (_ & Sr & _ & Sn).
      specialize (IH st0 H0). lia.
Qed.

Lemma header_blocks_from_none ls : forall prev,
  Forall (fun l => is_header l = false) ls ->
  header_blocks_from prev ls = 0.
Proof.
  induction ls as [|l ls IH]; intros prev F; [reflexivity|].
  inversion F as [|? ? Hl Fl]; subst. cbn [header_blocks_from].
  rewrite Hl, (IH false Fl). reflexivity.
Qed.

End HeaderBlock.

(** X11.  With time conversion on, a #types line after a #fields line whose
    type list (the C string at its offset 7, which is empty for the bare tag
    "#types" and is then a list of one empty field) has fewer fields than
    "idx_range" ends the run: the diagnostic of [find_timecol] is written,
    the line is not shown, nothing further is read, and the run returns 1.
    With time conversion off the same line does not end the run. *)
Theorem short_type_list_is_fatal {clock : TimeText} (bopts : useropts)
  (pre : list string) (tline : string) (rest : list string) (st : state) :
  steps bopts init_state pre = Continue st ->
  last_line_is (starts_with "#fields") pre = true ->
  starts_with "#types" tline = true ->
  Z.of_nat (List.length (all_fields (ifs (lp st)) (offset 7 tline)))
    < idx_range (lp st) ->
  (Opt.timeconv bopts <> 0 ->
   bro_cut_lines bopts (pre ++ tline :: rest)
   = Exit 1 (stdout st) (stderr st ++ [short_header_diag]))
  /\ (Opt.timeconv bopts = 0 ->
      exists st', step bopts st tline = Continue st').
Proof.
  intros H Lf Ty Sh.
  destruct (reached_ok _ _ _ H) as [K (_ & _ & Pf)]. rewrite Lf in Pf.
  destruct (types_line_kind _ Ty) as (Hd & Se & Fi).
  assert (R : 0 <= idx_range (lp st)) by (apply K).
  split; intros T.
  - destruct (find_timecol_cases (offset 7 tline) (lp st) R) as [Ft _].
    specialize (Ft Sh).
    assert (S : exists st', step bopts st tline = Fatal st'
                /\ stdout st' = stdout st
                /\ stderr st' = stderr st ++ [short_header_diag]).
    { unfold step, process_header.
      rewrite Pf, Ty, Hd, Se, Fi, Ft. cbn [andb negb].
      destruct (Z.eqb_spec (Opt.timeconv bopts) 0); [contradiction|].
      eexists. split; [reflexivity|]. cbn. rewrite app_nil_r. auto. }
    destruct S as (st' & S & O & E).
    rewrite (fatal_ends_run _ _ _ rest _ _ H S), O, E. reflexivity.
  - pose proof (step_writes bopts st tline) as W.
    pose proof (proj1 (step_undefined bopts st tline K)) as U.
    destruct (step bopts st tline) as [st'|st'|] eqn:S.
    + exists st'. reflexivity.
    + exfalso. revert S. unfold step, process_header.
      rewrite Pf, Ty, Hd, Se, Fi, T. cbn [andb negb Z.eqb].
      destruct (_ <=? Opt.showhdr bopts);
        [rewrite orb_true_r;
         destruct (output_indexes true (until_nul tline) (lp st) bopts)
           as [[o e]|]|];
        discriminate.
    + exfalso. destruct (U eq_refl) as (P & _). congruence.
Qed.

Lemma short_type_list_is_fatal_witness :
  let converting := {| Opt.showhdr := 0; Opt.negate := 0; Opt.timeconv := 2;
                       Opt.columns := ["b"]; Opt.ofs := "";
                       Opt.timefmt := "%s" |} in
  bro_cut_lines (clock := no_clock) converting
    ([tsv ["#fields"; "a"; "b"]] ++ "#types" :: ["1"])
  = Exit 1 [] [short_header_diag].
Proof.
  intros converting.
  destruct (short_type_list_is_fatal (clock := no_clock) converting
              [tsv ["#fields"; "a"; "b"]] "#types" ["1"] _
              eq_refl eq_refl eq_refl eq_refl) as [H _].
  apply H. discriminate.
Defined.

(** X12.  The separators follow the #separator lines: before the first one
    both are the tab; after one, the input separator is what [parsesep]
    reads from the most recent one (from the C string after its tag and
    blank) and the output separator is the override when one was given and
    the input separator otherwise. *)
Theorem separators_follow_declaration {clock : TimeText} (bopts : useropts)
  (pre : list string) (st : state) :
  steps bopts init_state pre = Continue st ->
  (seen_separator pre = false ->
   ifs (lp st) = TAB /\ ofs (lp st) = TAB)
  /\ (forall before sepstr after,
        pre = before ++ ("#separator " ++ sepstr)%string :: after ->
        seen_separator after = false ->
        ifs (lp st) = parsesep (until_nul sepstr)
        /\ ofs (lp st)
           = effective_ofs bopts (parsesep (until_nul sepstr))).
Proof.
  intros H. split.
  - apply (output_separator_tracking _ _ _ H).
  - intros before sepstr after -> N.
    rewrite steps_app in H.
    destruct (steps bopts init_state before) as [s0| |]; try discriminate.
    cbn [steps] in H.
    destruct (step bopts s0 ("#separator " ++ sepstr)) as [s1| |] eqn:S1;
      try discriminate.
    pose proof (step_separators _ _ _ _ S1) as P.
    assert (Sw : starts_with "#separator " ("#separator " ++ sepstr) = true)
      by reflexivity.
    rewrite Sw in P. destruct P as (s' & E & Ei & Eo).
    cbn [append] in E. injection E as <-.
    destruct (steps_keep_separators _ _ _ _ H N) as [Ei' Eo'].
    rewrite Ei', Eo', Ei, Eo. split; reflexivity.
Qed.

Lemma separators_follow_declaration_witness :
  let comma := {| Opt.showhdr := 0; Opt.negate := 0; Opt.timeconv := 0;
                  Opt.columns := []; Opt.ofs := ","; Opt.timefmt := "" |} in
  exists st,
    steps (clock := no_clock) comma init_state
      ["#separator \x09"; "#separator |"; "x"] = Continue st
    /\ ifs (lp st) = "|"%char /\ ofs (lp st) = ","%char.
Proof.
  intros comma. eexists. split; [reflexivity|].
  destruct (separators_follow_declaration (clock := no_clock) comma
              ["#separator \x09"; "#separator |"; "x"] _ eq_refl)
    as [_ H].
  exact (H ["#separator \x09"] "|" ["x"] eq_refl eq_refl).
Defined.

(** X13.  The schema persists between #fields lines: lines that are not
    #fields lines leave the output indexes, "idx_range" and the declared
    field count as they were; and a #fields line that the loop gets past
    replaces them by what [find_output_indexes] computes from the C string
    at its offset 8, which is the empty string, one empty field name, for
    the bare tag "#fields". *)
Theorem schema_persists_between_fields_lines {clock : TimeText}
  (bopts : useropts) (pre mid : list string) (st st' : state) :
  steps bopts init_state pre = Continue st ->
  steps bopts st mid = Continue st' ->
  (Forall (fun l => starts_with "#fields" l = false) mid ->
   out_indexes (lp st') = out_indexes (lp st)
   /\ idx_range (lp st') = idx_range (lp st)
   /\ num_fields (lp st') = num_fields (lp st))
  /\ (forall fline, mid = [fline] -> starts_with "#fields" fline = true ->
        find_output_indexes (offset 8 fline) (lp st) bopts
        = Some (lp st')).
Proof.
  intros H S. destruct (reached_ok _ _ _ H) as [K _]. split.
  - intros F.
    destruct (steps_keep_columns _ _ _ _ K S F) as (So & Sr & _ & Sn).
    auto.
  - intros fline -> Fi. cbn [steps] in S.
    destruct (step bopts st fline) as [s1| |] eqn:S1; try discriminate.
    injection S as <-. exact (step_fields_line _ _ _ _ S1 Fi).
Qed.

Lemma schema_persists_between_fields_lines_witness :
  exists st st',
    steps (clock := no_clock) (default_opts ["b"]) init_state
      [tsv ["#fields"; "a"; "b"]] = Continue st
    /\ steps (clock := no_clock) (default_opts ["b"]) st
         [tsv ["#types"; "s"; "t"]; "#separator ,"; "1,2"; "#close"]
       = Continue st'
    /\ out_indexes (lp st') = [1] /\ idx_range (lp st') = 2
    /\ num_fields (lp st') = 2.
Proof.
  eexists. eexists. split; [reflexivity|]. split; [reflexivity|].
  destruct (schema_persists_between_fields_lines (clock := no_clock)
              (default_opts ["b"]) [tsv ["#fields"; "a"; "b"]]
              [tsv ["#types"; "s"; "t"]; "#separator ,"; "1,2"; "#close"]
              _ _ eq_refl eq_refl) as [P _].
  apply P. repeat constructor.
Defined.

(** X14.  The bookkeeping of the driver: after any lines that the loop got
    past, "headers_seen" lies between 0 and 2 and is 0 exactly when no
    header line was read, "prev_line_hdr" tells whether the last line read
    was a header line, and "prev_fields_line" whether it was a #fields
    line. *)
Theorem driver_bookkeeping {clock : TimeText} (bopts : useropts)
  (pre : list string) (st : state) :
  steps bopts init_state pre = Continue st ->
  0 <= headers_seen st <= 2
  /\ (headers_seen st = 0 <-> Forall (fun l => is_header l = false) pre)
  /\ prev_line_hdr st = last_line_is is_header pre
  /\ prev_fields_line st = last_line_is (starts_with "#fields") pre.
Proof.
  intros H. destruct (reached_ok _ _ _ H) as [_ (Hs & Hh & Hf)].
  pose proof (header_blocks_from_nonneg pre false) as N.
  fold (header_blocks pre) in N.
  split; [lia|]. split; [|split; assumption].
  split.
  - intros Z0. apply Forall_forall. intros l Hl.
    destruct (is_header l) eqn:E; [|reflexivity].
    pose proof (header_blocks_from_header pre l false Hl E) as B.
    unfold header_blocks in *. lia.
  - intros F. rewrite Hs. unfold header_blocks.
    rewrite (header_blocks_from_none _ _ F). reflexivity.
Qed.

Lemma driver_bookkeeping_witness :
  exists st,
    steps (clock := no_clock) (default_opts []) init_state
      ["#fields"; "#types"; "x"; "#close"; "y"; "#open"] = Continue st
    /\ headers_seen st = 2 /\ prev_line_hdr st = true
    /\ prev_fields_line st = false.
Proof.
  eexists. split; [reflexivity|].
  destruct (driver_bookkeeping (clock := no_clock) (default_opts [])
              ["#fields"; "#types"; "x"; "#close"; "y"; "#open"] _ eq_refl)
    as (_ & _ & Hh & Hf).
  split; [reflexivity|]. split; [exact Hh|exact Hf].
Defined.

(** X15.  A data line that does not directly follow a #fields line and
    has at least as many fields as the last #fields line declared (none,
    when no #fields line was read yet; one, after the bare tag "#fields")
    is never skipped, whatever columns were asked for: exactly one record
    is written for it, made of one cell for each output index, the cells
    being cut from the C string of the line, and the only diagnostics are
    those of truncated time stamps. *)
Theorem full_data_line_is_written {clock : TimeText} (bopts : useropts)
  (pre : list string) (line : string) (st : state) :
  steps bopts init_state pre = Continue st ->
  is_header line = false ->
  last_line_is (starts_with "#fields") pre = false ->
  let fs := all_fields (ifs (lp st)) (until_nul line) in
  num_fields (lp st) <= Z.of_nat (List.length fs) ->
  exists st',
    step bopts st line = Continue st'
    /\ stdout st' = stdout st ++
         [join (buf2 (ofs (lp st)))
            (map (data_cell bopts (lp st) fs) (out_indexes (lp st)))]
    /\ Forall (fun d => d = trunc_diag)
         (flat_map (data_diags bopts (lp st) fs) (out_indexes (lp st)))
    /\ stderr st' = stderr st ++
         flat_map (data_diags bopts (lp st) fs) (out_indexes (lp st)).
Proof.
  intros H Hd Lf fs L.
  destruct (reached_ok _ _ _ H) as [(I & R & _ & T) (_ & _ & Pf)].
  rewrite Lf in Pf. pose proof (reached_range _ _ _ H) as Rg.
  pose proof (output_indexes_data (until_nul line) (lp st) bopts I R
                (T Pf)) as D.
  cbn zeta in D. fold fs in D.
  destruct (Z.ltb_spec (Z.of_nat (List.length fs)) (idx_range (lp st)));
    [lia|].
  eexists. split.
  { unfold step. rewrite Pf, Hd, D. reflexivity. }
  cbn. split; [reflexivity|]. split; [|reflexivity].
  apply Forall_forall. intros d Hd'. apply in_flat_map in Hd'.
  destruct Hd' as (i & _ & Hi). unfold data_diags in Hi.
  destruct (i =? -1); [contradiction|].
  destruct (_ && _)%bool; [|contradiction].
  destruct Hi as [<-|[]]. reflexivity.
Qed.

Lemma full_data_line_is_written_witness :
  exists st st',
    steps (clock := no_clock) (default_opts ["b"; "zz"]) init_state
      [tsv ["#fields"; "a"; "b"]; tsv ["#types"; "s"; "t"]] = Continue st
    /\ step (clock := no_clock) (default_opts ["b"; "zz"]) st
         (tsv ["1"; "2"; "3"]) = Continue st'
    /\ stdout st' = [tsv ["2"; ""]].
Proof.
  destruct (full_data_line_is_written (clock := no_clock)
              (default_opts ["b"; "zz"])
              [tsv ["#fields"; "a"; "b"]; tsv ["#types"; "s"; "t"]]
              (tsv ["1"; "2"; "3"]) _ eq_refl eq_refl eq_refl
              ltac:(vm_compute; discriminate))
    as (st' & S & O & _).
  eexists. exists st'. split; [reflexivity|]. split; [exact S|exact O].
Defined.

(* ================================================================= *)
(** ** Further properties: time columns and unknown columns *)

Section TypesLine.

Context {clock : TimeText}.

(** With time conversion on, a #types line that the loop gets past was
    read by [find_timecol] on the C string at offset 7 of the line. *)
Lemma step_types_line bopts st line st' :
  step bopts st line = Continue st' ->
  starts_with "#types" line = true ->
  Opt.timeconv bopts <> 0 ->
  find_timecol (offset 7 line) (lp st) = inl (lp st').
Proof.
  intros S Ty T. destruct (types_line_kind _ Ty) as (H & Se & Fi).
  revert S. unfold step, process_header. rewrite H, Se, Fi, Ty.
  cbn [negb andb orb]. rewrite andb_false_r.
  destruct (prev_fields_line st); cbn [negb]; [|discriminate].
  destruct (Z.eqb_spec (Opt.timeconv bopts) 0); [contradiction|].
  set (types := offset 7 line) in *.
  destruct (find_timecol types (lp st)) as [l|] eqn:F; [|discriminate].
  intros S.
  destruct (_ <=? Opt.showhdr bopts);
    [destruct (output_indexes true (until_nul line) l bopts) as [[o e]|];
     [|discriminate]|];
    injection S as <-; reflexivity.
Qed.

Lemma output_field_unresolved hdr tc ttc l bopts tmp :
  output_field hdr tc ttc l bopts tmp (-1) = Some (EmptyString, []).
Proof. reflexivity. Qed.

End TypesLine.

(** X16.  With time conversion on, after a #types line that the loop gets
    past, the columns converted on data lines are exactly those, below
    "idx_range", whose type field on that line is the string "time"; the
    output indexes are those of the #fields line before it.  The type
    fields are those of the C string at offset 7 of the line: for the bare
    tag "#types" that is one empty field, so no column is converted. *)
Theorem time_columns_follow_types_line {clock : TimeText} (bopts : useropts)
  (pre : list string) (tline : string) (st st' : state) :
  Opt.timeconv bopts <> 0 ->
  steps bopts init_state pre = Continue st ->
  starts_with "#types" tline = true ->
  step bopts st tline = Continue st' ->
  let types := offset 7 tline in
  out_indexes (lp st') = out_indexes (lp st)
  /\ idx_range (lp st') = idx_range (lp st)
  /\ forall i, 0 <= i < idx_range (lp st) ->
       converted bopts (lp st') i
       = String.eqb "time" (field_of (all_fields (ifs (lp st)) types) i).
Proof.
  intros T H Ty S types. destruct (reached_ok _ _ _ H) as [([R _] & _) _].
  pose proof (step_types_line _ _ _ _ S Ty T) as F. fold types in F.
  destruct (find_timecol_cases types (lp st) R) as [Short Full].
  destruct (Z_lt_le_dec
              (Z.of_nat (List.length (all_fields (ifs (lp st)) types)))
              (idx_range (lp st))) as [L|L].
  - rewrite (Short L) in F. discriminate F.
  - destruct (Full L) as (l & F' & _ & Fl & (So & Sr & _) & _).
    rewrite F in F'. injection F' as <-.
    split; [exact So|]. split; [exact Sr|].
    intros i Hi. unfold converted. rewrite (Fl i Hi).
    destruct (Z.eqb_spec (Opt.timeconv bopts) 0); [contradiction|].
    reflexivity.
Qed.

Lemma time_columns_follow_types_line_witness :
  let converting := {| Opt.showhdr := 0; Opt.negate := 0; Opt.timeconv := 2;
                       Opt.columns := []; Opt.ofs := "";
                       Opt.timefmt := "%s" |} in
  exists st st',
    steps (clock := no_clock) converting init_state
      [tsv ["#fields"; "ts"; "uid"]] = Continue st
    /\ step (clock := no_clock) converting st
         (tsv ["#types"; "time"; "string"]) = Continue st'
    /\ converted converting (lp st') 0 = true
    /\ converted converting (lp st') 1 = false.
Proof.
  intros converting. eexists. eexists.
  split; [reflexivity|]. split; [reflexivity|].
  destruct (time_columns_follow_types_line (clock := no_clock) converting
              [tsv ["#fields"; "ts"; "uid"]]
              (tsv ["#types"; "time"; "string"]) _ _
              ltac:(discriminate) eq_refl eq_refl eq_refl)
    as (_ & _ & C).
  split; [exact (C 0 ltac:(vm_compute; split; [discriminate|reflexivity]))|].
  exact (C 1 ltac:(vm_compute; split; [discriminate|reflexivity])).
Defined.

(** X17.  Asking, with negate off, only for names that the #fields line
    does not declare is no error: every output index is the "not found"
    marker, "idx_range" is 1, and every data line, whatever it holds, is
    written as that many empty cells, without a diagnostic. *)
Theorem unknown_columns_give_empty_cells {clock : TimeText} (line : string)
  (lp : logparams) (bopts : useropts) :
  is_nul (ifs lp) = false ->
  Opt.negate bopts = 0 ->
  Opt.columns bopts <> [] ->
  Forall (fun c => ~ In c (all_fields (ifs lp) line)) (Opt.columns bopts) ->
  let n := List.length (Opt.columns bopts) in
  exists lp',
    find_output_indexes line lp bopts = Some lp'
    /\ out_indexes lp' = repeat (-1) n
    /\ idx_range lp' = 1
    /\ forall lp2 data,
         same_columns lp' lp2 ->
         output_indexes false data lp2 bopts
         = Some ([join (buf2 (ofs lp2)) (repeat EmptyString n)], []).
Proof.
  intros N G C F n.
  destruct (find_output_indexes_ok line lp bopts N)
    as (lp' & E & _ & R & S1 & _).
  pose proof (requested_indexes _ _ _ _ E C G) as O.
  assert (O' : out_indexes lp' = repeat (-1) n).
  { rewrite O. unfold n. clear - F.
    induction F as [|c cs Hc _ IH]; [reflexivity|].
    cbn [map List.length repeat]. rewrite IH.
    apply string_index_missing in Hc. rewrite Hc. reflexivity. }
  assert (Ri : idx_range lp' = 1).
  { revert E. unfold find_output_indexes. rewrite N.
    destruct (Opt.columns bopts) as [|c cs] eqn:Cs; [congruence|].
    rewrite G. cbn [Z.eqb]. intros [= <-].
    unfold set_indexes in *. cbn [idx_range out_indexes] in *.
    rewrite O', maxval_of_resolved.
    assert (Rv : forall k, resolved (repeat (-1) k) = []).
    { intros k. induction k as [|k IHk]; [reflexivity|]. exact IHk. }
    rewrite Rv. reflexivity. }
  exists lp'. split; [exact E|]. split; [exact O'|]. split; [exact Ri|].
  intros lp2 data (So & Sr & St & Sn).
  unfold output_indexes. rewrite Sr, St, Ri, So, O'.
  destruct (Z.ltb_spec (tmp_slots lp') (1 + 0)); [lia|].
  rewrite take_fields_line.
  pose proof (all_fields_length (ifs lp2) data) as L1.
  destruct (Nat.leb_spec (Z.to_nat (1 + 0))
              (List.length (all_fields (ifs lp2) data)));
    [|change (Z.to_nat (1 + 0)) with 1%nat in *; lia].
  rewrite (output_loop_cells _ _ _ _ _ _ (fun _ => EmptyString)
             (fun _ => [])).
  - rewrite loop_text_plain, map_repeat.
    assert (Fl : forall (l : list Z),
              flat_map (fun _ : Z => @nil string) l = [])
      by (intros l; induction l; cbn; auto).
    rewrite Fl. reflexivity.
  - intros i Hi. apply repeat_spec in Hi. subst i.
    apply output_field_unresolved.
Qed.

Lemma unknown_columns_give_empty_cells_witness :
  exists lp',
    find_output_indexes (tsv ["a"; "b"]) init_lp (default_opts ["x"; "y"])
    = Some lp'
    /\ out_indexes lp' = [-1; -1] /\ idx_range lp' = 1
    /\ output_indexes (clock := no_clock) false "" lp'
         (default_opts ["x"; "y"])
       = Some ([String TAB EmptyString], []).
Proof.
  destruct (unknown_columns_give_empty_cells (clock := no_clock)
              (tsv ["a"; "b"]) init_lp (default_opts ["x"; "y"])
              eq_refl eq_refl ltac:(discriminate))
    as (lp' & F & O & R & D).
  - repeat constructor; intros [H|[H|[]]]; discriminate H.
  - exists lp'. split; [exact F|]. split; [exact O|]. split; [exact R|].
    rewrite (D lp' "" ltac:(repeat split)).
    injection F as <-. reflexivity.
Defined.
